(* ===================================================================== *)
(* Time-domain programs of Strawberry Fields (strawberryfields/tdm/       *)
(* tdmprogram.py): a shallow embedding of the module and the properties   *)
(* of its validators, its roll/unroll engine, its device compiler and its *)
(* sample reshaper.                                                        *)
(* ===================================================================== *)

From Stdlib Require Import ZArith QArith Lia.
From stdpp Require Import gmap strings list fin_maps pretty.

Local Open Scope nat_scope.

(* --------------------------------------------------------------------- *)
(* 1. Python values and exceptions                                         *)
(* --------------------------------------------------------------------- *)

(** The exceptions the module raises or lets escape.  [ValueError] and
    [CircuitError] carry which of the module's messages they were raised
    with. *)
Inductive value_error_msg :=
| EqualLength          (* "Gate-parameter lists must be of equal length." *)
| AtLeastOneMeasurement(* "Must be at least one measurement." *)
| MeasurementsMatch.   (* "Number of measurement operators must match number of spatial modes." *)

Inductive circuit_error_msg :=
| IncompatibleTopology     (* "... due to incompatible topology." *)
| IncompatibleModeOrdering (* "... due to incompatible mode ordering." *)
| IncompatibleParameter    (* "... due to incompatible parameter." *)
| TemporalModes (n max : nat)   (* "contains n temporal modes ... up to max modes." *)
| ConcurrentModes (n dev : nat). (* "contains n concurrent modes ... supports dev modes." *)

Inductive pyerror :=
| ValueError (m : value_error_msg)
| TypeError
| IndexError
| KeyError
| ZeroDivisionError
| AssertionError
| AttributeError
| CircuitError (target : string) (m : circuit_error_msg).

(** A call either returns or raises. *)
Inductive result (A : Type) :=
| Ok (a : A)
| Err (e : pyerror).
Arguments Ok {A} a.
Arguments Err {A} e.

Definition bind {A B} (r : result A) (k : A -> result B) : result B :=
  match r with
  | Ok a => k a
  | Err e => Err e
  end.

Notation "'do' x <- e ; k" := (bind e (fun x => k))
  (at level 10, x name, e at level 100, k at level 200).

(** [l[i]] for a non-negative index: IndexError out of range. *)
Definition getitem {A} (l : list A) (i : nat) : result A :=
  match l !! i with
  | Some a => Ok a
  | None => Err IndexError
  end.

(** Runs [f] over [l] from left to right and stops at the first exception. *)
Fixpoint mapM {A B} (f : A -> result B) (l : list A) : result (list B) :=
  match l with
  | [] => Ok []
  | a :: l' => do b <- f a; do bs <- mapM f l'; Ok (b :: bs)
  end.

(** Python numbers: an [int] or a [float].  A float is modelled by the
    rational it denotes; no property below depends on rounding. *)
Inductive pynum :=
| PyInt (z : Z)
| PyFloat (x : Q).

Definition num_val (v : pynum) : Q :=
  match v with
  | PyInt z => inject_Z z
  | PyFloat x => x
  end.

(** An argument of the [copies] keyword: any Python object. *)
Inductive pyobject :=
| ObjInt (z : Z)
| ObjFloat (x : Q)
| ObjStr (s : string)
| ObjNone.

(** The [shift] keyword: a string ("default" is the token the code looks
    for), an integer, or anything else. *)
Inductive shift_policy :=
| ShiftStr (s : string)
| ShiftInt (n : Z)
| ShiftOther.

(* --------------------------------------------------------------------- *)
(* 2. Operations, commands and the program object                          *)
(* --------------------------------------------------------------------- *)

(** A gate argument: a number or the free parameter named [p<i>] that
    [context] created for the [i]-th positional sequence. *)
Inductive param :=
| Num (v : pynum)
| Sym (i : nat).

(** An operation object: the name of its class, whether that class derives
    from [ops.Measurement], and its parameter list [p]. *)
Record operation := mk_op {
  op_class : string;
  op_is_measurement : bool;
  p : list param
}.

(** [cmd.op.__class__( *params )]: a new operation of the same class. *)
Definition rebuild (o : operation) (params : list param) : operation :=
  mk_op (op_class o) (op_is_measurement o) params.

(** A command: an operation and the registers it acts on, each register
    given by its index [ind]. *)
Record command := mk_cmd {
  op : operation;
  reg : list nat
}.

(** The name [f"p{i}"] of the free parameter that [context] creates for
    the [i]-th positional sequence. *)
Definition loop_var_name (i : nat) : string := "p" +:+ pretty i.

(** What [self.params( *names )] returns and [context] binds to
    [self.loop_vars].  [Program.params] of the base class makes one free
    parameter per name and returns them as a list, except for a single
    name: then it returns the parameter itself, not a list of one.  A free
    parameter is given by its name. *)
Inductive loop_vars_value :=
| OneParameter (name : string)
| ParameterList (names : list string).

Definition params (names : list string) : loop_vars_value :=
  match names with
  | [name] => OneParameter name
  | _ => ParameterList names
  end.

Record TDMProgram := mk_prog {
  N : list nat;
  concurr_modes : nat;
  circuit : list command;
  timebins : nat;
  total_timebins : Z;
  spatial_modes : nat;
  measured_modes : list nat;
  rolled_circuit : option (list command);
  unrolled_circuit : option (list command);
  (* set by [context]; every method below reads them only after [context]
     has run, so they are plain fields holding the keyword defaults *)
  copies : Z;
  tdm_params : list (list pynum);
  shift : shift_policy;
  (* [None] until [context] has set the attribute *)
  loop_vars : option loop_vars_value
}.

Definition set_circuit (c : list command) (s : TDMProgram) : TDMProgram :=
  mk_prog (N s) (concurr_modes s) c (timebins s) (total_timebins s) (spatial_modes s)
          (measured_modes s) (rolled_circuit s) (unrolled_circuit s)
          (copies s) (tdm_params s) (shift s) (loop_vars s).

Definition set_measured_modes (m : list nat) (s : TDMProgram) : TDMProgram :=
  mk_prog (N s) (concurr_modes s) (circuit s) (timebins s) (total_timebins s) (spatial_modes s)
          m (rolled_circuit s) (unrolled_circuit s)
          (copies s) (tdm_params s) (shift s) (loop_vars s).

Definition set_unrolled_circuit (u : option (list command)) (s : TDMProgram) : TDMProgram :=
  mk_prog (N s) (concurr_modes s) (circuit s) (timebins s) (total_timebins s) (spatial_modes s)
          (measured_modes s) (rolled_circuit s) u
          (copies s) (tdm_params s) (shift s) (loop_vars s).

(** [TDMProgram.__init__] with [N] a sequence (an integer [n] is the
    sequence [[n]]). *)
Definition __init__ (Ns : list nat) : TDMProgram :=
  mk_prog Ns (sum_list Ns) [] 0 0 0 [] None None 1 [] (ShiftStr "default") None.

(** [self.register]: the register references of the program, in index
    order; the base class allocates [concurr_modes] of them. *)
Definition register (s : TDMProgram) : list nat := seq 0 (concurr_modes s).

(** [Program.append]: the base class appends the command to the active
    circuit. *)
Definition append (o : operation) (modes : list nat) (s : TDMProgram) : TDMProgram :=
  set_circuit (circuit s ++ [mk_cmd o modes]) s.

(* --------------------------------------------------------------------- *)
(* 3. Register shifting and unrolling                                      *)
(* --------------------------------------------------------------------- *)

(** Where a slice bound [n] falls in a sequence of length [len]: negative
    bounds count from the end, and every bound is clipped to [0, len]. *)
Definition slice_bound (len : nat) (n : Z) : nat :=
  if (n <? 0)%Z then Z.to_nat (Z.max 0 (Z.of_nat len + n)) else Z.to_nat n.

(** [l[n:] + l[:n]] *)
Definition shift_by {A} (l : list A) (n : Z) : list A :=
  let k := slice_bound (length l) n in
  drop k l ++ take k l.

(** [l[start:stop]] and [l[start:stop] = new] for [0 <= start <= stop]. *)
Definition get_slice {A} (l : list A) (start stop : nat) : list A :=
  take (stop - start) (drop start l).

Definition set_slice {A} (l : list A) (start stop : nat) (new : list A) : list A :=
  take start l ++ new ++ drop stop l.

(** [get_modes]: [itemgetter] of the command's register indices applied to
    [q].  [itemgetter()] without an index is a TypeError. *)
Definition get_modes (cmd : command) (q : list nat) : result (list nat) :=
  match reg cmd with
  | [] => Err TypeError
  | inds => mapM (getitem q) inds
  end.

(** The slice intervals [sm] of [unroll]: one (start, stop) per band. *)
Definition band_slices (Ns : list nat) : list (nat * nat) :=
  map (fun i => (sum_list (take i Ns), sum_list (take i Ns) + Ns !!! i))
      (seq 0 (length Ns)).

(** The default shift: each band's window is shifted by one, in band
    order, on the list copy [q_aux]. *)
Definition shift_default (sm : list (nat * nat)) (q : list nat) : list nat :=
  fold_left (fun q_aux s => set_slice q_aux s.1 s.2 (shift_by (get_slice q_aux s.1 s.2) 1))
            sm q.

(** The shift at the end of a time bin. *)
Definition shift_registers (pol : shift_policy) (sm : list (nat * nat)) (q : list nat)
  : list nat :=
  match pol with
  | ShiftStr s => if String.eqb s "default" then shift_default sm q else q
  | ShiftInt n => shift_by q n
  | ShiftOther => q
  end.

(** [apply_op]: only [params[0]] is looked at. *)
Definition apply_op (self : TDMProgram) (cmd : command) (q : list nat) (t : nat)
  : result TDMProgram :=
  match p (op cmd) with
  | [] => Err IndexError
  | Sym arg_index :: rest =>
      do vals <- getitem (tdm_params self) arg_index;
      if Nat.eqb (timebins self) 0 then Err ZeroDivisionError
      else
        do v <- getitem vals (t mod timebins self);
        do modes <- get_modes cmd q;
        Ok (append (rebuild (op cmd) (Num v :: rest)) modes self)
  | Num v :: rest =>
      do modes <- get_modes cmd q;
      Ok (append (rebuild (op cmd) (Num v :: rest)) modes self)
  end.

(** The inner loop of [unroll]: every command of the rolled circuit at
    time step [t]. *)
Fixpoint apply_ops (self : TDMProgram) (cmds : list command) (q : list nat) (t : nat)
  : result TDMProgram :=
  match cmds with
  | [] => Ok self
  | cmd :: cmds' => do self' <- apply_op self cmd q t; apply_ops self' cmds' q t
  end.

(** The outer loop of [unroll]: [n] time steps starting at step [t]. *)
Fixpoint unroll_steps (rc : list command) (sm : list (nat * nat))
    (self : TDMProgram) (q : list nat) (t n : nat) : result (TDMProgram * list nat) :=
  match n with
  | 0 => Ok (self, q)
  | S n' =>
      do self' <- apply_ops self rc q t;
      unroll_steps rc sm self' (shift_registers (shift self) sm q) (S t) n'
  end.

(** [cmd.reg[0].ind] of every measurement of the rolled circuit. *)
Fixpoint first_measured (rc : list command) : result (list nat) :=
  match rc with
  | [] => Ok []
  | cmd :: rc' =>
      if op_is_measurement (op cmd) then
        do r <- getitem (reg cmd) 0;
        do rs <- first_measured rc';
        Ok (r :: rs)
      else first_measured rc'
  end.

(** [TDMProgram.unroll] *)
Definition unroll (self : TDMProgram) : result TDMProgram :=
  match unrolled_circuit self with
  | Some c => Ok (set_circuit c self)
  | None =>
      let self := set_circuit [] self in
      let q := register self in
      let sm := band_slices (N self) in
      match rolled_circuit self with
      | None => Err TypeError
      | Some rc =>
          do ms <- first_measured rc;
          let self := set_measured_modes (measured_modes self ++ ms) self in
          do r <- unroll_steps rc sm self q 0 (Z.to_nat (total_timebins self));
          let self := r.1 in
          Ok (set_unrolled_circuit (Some (circuit self)) self)
      end
  end.

(* --------------------------------------------------------------------- *)
(* 4. Validators, [context] and [__exit__]                                 *)
(* --------------------------------------------------------------------- *)

(** [a is b] for two freshly computed [int] objects.  CPython keeps one
    shared object for each integer of [-5, 256] and allocates a new object
    for every other result, so two equal counts are the same object exactly
    when they lie in that interval. *)
Definition int_is (a b : nat) : bool := Nat.eqb a b && Nat.leb a 256.

(** The counting loop of [validate_measurements]. *)
Definition count_measured (circ : list command) : nat :=
  fold_left (fun spatial cmd =>
               if op_is_measurement (op cmd) then spatial + length (reg cmd) else spatial)
            circ 0.

(** [validate_measurements] *)
Definition validate_measurements (circ : list command) (Ns : list nat) : result nat :=
  let spatial := count_measured circ in
  if Nat.eqb spatial 0 then Err (ValueError AtLeastOneMeasurement)
  else if negb (int_is spatial (length Ns)) then Err (ValueError MeasurementsMatch)
  else Ok spatial.

(** [isinstance(copies, int) and copies >= 1] *)
Definition is_positive_int (c : pyobject) : bool :=
  match c with
  | ObjInt z => (1 <=? z)%Z
  | _ => false
  end.

(** [input_check] *)
Definition input_check (args : list (list pynum)) (c : pyobject) : result unit :=
  let param_lengths := map (fun param => length param) args in
  if negb (Nat.eqb (size (list_to_set param_lengths : gset nat)) 1)
  then Err (ValueError EqualLength)
  else if negb (is_positive_int c) then Err TypeError
  else Ok tt.

(** [TDMProgram.context]: the check comes first; the attributes are set
    only when it has passed. *)
Definition context (self : TDMProgram) (args : list (list pynum)) (c : pyobject)
    (sh : shift_policy) : result TDMProgram :=
  do _ <- input_check args c;
  match c with
  | ObjInt z =>
      Ok (mk_prog (N self) (concurr_modes self) (circuit self) (timebins self)
                  (total_timebins self) (spatial_modes self) (measured_modes self)
                  (rolled_circuit self) (unrolled_circuit self) z args sh
                  (Some (params (map loop_var_name (seq 0 (length args))))))
  | _ => Err TypeError
  end.

(** [TDMProgram.__exit__]; [ex_type] is the exception the block raised,
    if any. *)
Definition __exit__ (self : TDMProgram) (ex_type : option pyerror) : result TDMProgram :=
  match ex_type with
  | Some _ => Ok self
  | None =>
      do sp <- validate_measurements (circuit self) (N self);
      do first <- getitem (tdm_params self) 0;
      let tb := length first in
      Ok (mk_prog (N self) (concurr_modes self) (circuit self) tb
                  (Z.of_nat tb * copies self)%Z sp (measured_modes self)
                  (Some (circuit self)) (unrolled_circuit self)
                  (copies self) (tdm_params self) (shift self) (loop_vars self))
  end.

(** A whole [with prog.context(...) as (p, q): ...] statement whose block
    appends the commands [body] and raises nothing. *)
Definition build (Ns : list nat) (args : list (list pynum)) (c : pyobject)
    (sh : shift_policy) (body : list command) : result TDMProgram :=
  do self <- context (__init__ Ns) args c sh;
  __exit__ (set_circuit (circuit self ++ body) self) None.

(* --------------------------------------------------------------------- *)
(* 5. Device specifications and compilation                                *)
(* --------------------------------------------------------------------- *)

(** Modelled from the spec: the range a device declares for a parameter
    name.  The class that implements [x in param_range] is not among the
    sources; the spec describes a range as a closed numeric interval
    (inclusive bounds) or a categorical set (an inclusion test).  A range is
    a list of such items: an interval, or one admissible value. *)
Inductive range_item :=
| Interval (lo hi : Q)
| Value (v : Q).

Definition in_item (x : Q) (it : range_item) : bool :=
  match it with
  | Interval lo hi => Qle_bool lo x && Qle_bool x hi
  | Value v => Qeq_bool x v
  end.

(** [x in param_range] *)
Definition in_range (x : pynum) (r : list range_item) : bool :=
  existsb (in_item (num_val x)) r.

(** [device.modes] *)
Record device_modes := mk_modes {
  concurrent : nat;
  spatial : nat;
  temporal_max : nat   (* modes["temporal"]["max"] *)
}.

(** One operation of the parsed layout: [operation["op"]],
    [operation["modes"]] and [operation["args"]]. *)
Record layout_operation := mk_lop {
  lop_op : string;
  lop_modes : list nat;
  lop_args : list string
}.

(** The device specification, with its layout already parsed
    ([bb.loads(device.layout).operations]).  It has the attributes
    [target], [modes], [layout] and [gate_parameters], and no other. *)
Record DeviceSpec := mk_device {
  target : string;
  modes : device_modes;
  layout : list layout_operation;
  gate_parameters : gmap string (list range_item)
}.

(** [a == 0] for a gate argument; a free parameter is not equal to a
    number. *)
Definition eq_zero (a : param) : bool :=
  match a with
  | Num v => Qeq_bool (num_val v) 0
  | Sym _ => false
  end.

(** [for j in range(1, len_params_program): assert p[j] == 0] *)
Definition assert_rest_zero (ps : list param) : result unit :=
  if forallb eq_zero (drop 1 ps) then Ok tt else Err AssertionError.

(** [for x in local_p_vals: if not x in param_range: raise ...] *)
Definition check_values (tgt : string) (vals : list pynum) (r : list range_item)
  : result unit :=
  if forallb (fun x => in_range x r) vals then Ok tt
  else Err (CircuitError tgt IncompatibleParameter).

(** The loop over [enumerate(param_names)] from position [k] on, with the
    current value of [counter]. *)
Fixpoint check_params (tgt : string) (gp : gmap string (list range_item))
    (tp : list (list pynum)) (ps : list param) (param_names : list string)
    (k counter : nat) : result unit :=
  match param_names with
  | [] => Ok tt
  | param_name :: names' =>
      match gp !! param_name with
      | None => Err KeyError
      | Some param_range =>
          do program_param <- getitem ps k;
          match program_param with
          | Num (PyFloat x) =>
              if in_range (PyFloat x) param_range
              then check_params tgt gp tp ps names' (S k) counter
              else Err (CircuitError tgt IncompatibleParameter)
          | _ =>
              do local_p_vals <- getitem tp counter;
              do _ <- check_values tgt local_p_vals param_range;
              check_params tgt gp tp ps names' (S k) (S counter)
          end
      end
  end.

(** The body of the loop over the layout's operations: the assertion on
    the arguments after the first, then the range checks with [counter]
    starting at 0. *)
Definition check_operation (self : TDMProgram) (device : DeviceSpec)
    (operation : layout_operation) (cmd : command) : result unit :=
  let param_names := lop_args operation in
  let len_params_program := length (p (op cmd)) in
  let len_params_device := length param_names in
  do _ <- (if len_params_device <? len_params_program
           then assert_rest_zero (p (op cmd)) else Ok tt);
  check_params (target device) (gate_parameters device) (tdm_params self)
               (p (op cmd)) param_names 0 0.

Fixpoint check_operations (self : TDMProgram) (device : DeviceSpec)
    (rc : list command) (operations : list layout_operation) (i : nat) : result unit :=
  match operations with
  | [] => Ok tt
  | operation :: operations' =>
      do cmd <- getitem rc i;
      do _ <- check_operation self device operation cmd;
      check_operations self device rc operations' (S i)
  end.

(** [TDMProgram.compile], with assertions enabled. *)
Definition compile (self : TDMProgram) (device : DeviceSpec) : result unit :=
  match rolled_circuit self with
  | None => Err TypeError
  | Some rc =>
      let program_gates := map (fun cmd => op_class (op cmd)) rc in
      let device_gates := map lop_op (layout device) in
      if negb (bool_decide (device_gates = program_gates))
      then Err (CircuitError (target device) IncompatibleTopology)
      else
        let program_modes := map reg rc in
        let device_modes := map lop_modes (layout device) in
        if negb (bool_decide (program_modes = device_modes))
        then Err (CircuitError (target device) IncompatibleModeOrdering)
        else check_operations self device rc (layout device) 0
  end.

(** [TDMProgram.assert_number_of_modes].  The message of the third branch
    is formatted from [device.timebins], an attribute the device
    specification does not have, so what escapes is an AttributeError. *)
Definition assert_number_of_modes (self : TDMProgram) (device : DeviceSpec) : result unit :=
  if temporal_max (modes device) <? timebins self
  then Err (CircuitError (target device)
                         (TemporalModes (timebins self) (temporal_max (modes device))))
  else if concurrent (modes device) <? concurr_modes self
  then Err (CircuitError (target device)
                         (ConcurrentModes (concurr_modes self) (concurrent (modes device))))
  else if spatial (modes device) <? spatial_modes self
  then Err AttributeError
  else Ok tt.
(* --------------------------------------------------------------------- *)
(* 6. Reshaping the samples                                                *)
(* --------------------------------------------------------------------- *)

(** [ceil(a / b)] for non-negative integers; division by zero raises. *)
Definition ceil_div (a b : nat) : result nat :=
  if Nat.eqb b 0 then Err ZeroDivisionError else Ok ((a + b - 1) / b).

(** [l * k] *)
Definition repeat_list {A} (l : list A) (k : nat) : list A :=
  mjoin (replicate k l).

(** [zip( *ls )]: the tuples of the [j]-th elements, as many as the
    shortest list has elements; no list, no tuple. *)
Definition min_length {A} (ls : list (list A)) : nat :=
  match ls with
  | [] => 0
  | l :: ls' => fold_left (fun n l' => Nat.min n (length l')) ls' (length l)
  end.

Definition zip_star (ls : list (list nat)) : list (list nat) :=
  map (fun j => map (fun l => l !!! j) ls) (seq 0 (min_length ls)).

(** The loop of [_get_mode_order] that fills [all_modes]. *)
Definition all_modes (Ns : list nat) : result (list (list nat)) :=
  mapM (fun i =>
          let ra := seq (sum_list (take i Ns)) (sum_list (take (i + 1) Ns) - sum_list (take i Ns)) in
          do k <- ceil_div (max_list Ns) (length ra);
          Ok (repeat_list ra k))
       (seq 0 (length Ns)).

(** [_get_mode_order] *)
Definition _get_mode_order (num_of_values : nat) (Ns : list nat) : result (list nat) :=
  do am <- all_modes Ns;
  let mode_order := mjoin (zip_star am) in
  do k <- ceil_div num_of_values (length mode_order);
  Ok (take num_of_values (repeat_list mode_order k)).

Section Reshape.
Context {V : Type}.

(** [len([i for j in all_samples.values() for i in j])] *)
Definition num_values (all_samples : gmap nat (list V)) : nat :=
  map_fold (fun _ j n => length j + n) 0 all_samples.

(** The loop of [reshape_samples] over [enumerate(mode_order)] from
    position [i] on.  It returns the new dictionary together with what is
    left of [all_samples], whose lists the loop pops in place. *)
Fixpoint reshape_loop (measured : list nat) (Ns : list nat) (mode_order : list nat)
    (i : nat) (all_samples new_samples : gmap nat (list V))
  : result (gmap nat (list V) * gmap nat (list V)) :=
  match mode_order with
  | [] => Ok (new_samples, all_samples)
  | m :: rest =>
      if Nat.eqb (length Ns) 0 then Err ZeroDivisionError
      else
        do idx <- getitem measured (i mod length Ns);
        let new_samples :=
          match new_samples !! idx with
          | None => <[idx := []]> new_samples
          | Some _ => new_samples
          end in
        match all_samples !! m with
        | None => Err KeyError
        | Some [] => Err IndexError
        | Some (x :: xs) =>
            reshape_loop measured Ns rest (S i) (<[m := xs]> all_samples)
                         (<[idx := default [] (new_samples !! idx) ++ [x]]> new_samples)
        end
  end.

(** [reshape_samples]; [measured] is its argument [modes]. *)
Definition reshape_samples (all_samples : gmap nat (list V)) (measured : list nat)
    (Ns : list nat) : result (gmap nat (list V) * gmap nat (list V)) :=
  let num_of_values := num_values all_samples in
  do mode_order <- _get_mode_order num_of_values Ns;
  reshape_loop measured Ns mode_order 0 all_samples ∅.

End Reshape.

(* --------------------------------------------------------------------- *)
(* Derived descriptions used to state the properties                       *)
(* --------------------------------------------------------------------- *)

(** The command [apply_op] appends for [cmd] at time step [t] with the
    registers in the order [q]. *)
Definition emitted (tp : list (list pynum)) (tb : nat) (q : list nat) (t : nat)
    (cmd : command) : result command :=
  match p (op cmd) with
  | [] => Err IndexError
  | Sym arg_index :: rest =>
      do vals <- getitem tp arg_index;
      if Nat.eqb tb 0 then Err ZeroDivisionError
      else
        do v <- getitem vals (t mod tb);
        do ms <- get_modes cmd q;
        Ok (mk_cmd (rebuild (op cmd) (Num v :: rest)) ms)
  | Num v :: rest =>
      do ms <- get_modes cmd q;
      Ok (mk_cmd (rebuild (op cmd) (Num v :: rest)) ms)
  end.

(** The commands of [n] time steps from step [t] on, and the register
    order after them. *)
Fixpoint emit_steps (tp : list (list pynum)) (tb : nat) (pol : shift_policy)
    (sm : list (nat * nat)) (rc : list command) (q : list nat) (t n : nat)
  : result (list command * list nat) :=
  match n with
  | 0 => Ok ([], q)
  | S n' =>
      do cs <- mapM (emitted tp tb q t) rc;
      do r <- emit_steps tp tb pol sm rc (shift_registers pol sm q) (S t) n';
      Ok (cs ++ r.1, r.2)
  end.

Definition set_shift (sh : shift_policy) (s : TDMProgram) : TDMProgram :=
  mk_prog (N s) (concurr_modes s) (circuit s) (timebins s) (total_timebins s) (spatial_modes s)
          (measured_modes s) (rolled_circuit s) (unrolled_circuit s)
          (copies s) (tdm_params s) sh (loop_vars s).

(** The value of a call, mapped. *)
Definition result_map {A B} (f : A -> B) (r : result A) : result B :=
  match r with
  | Ok a => Ok (f a)
  | Err e => Err e
  end.

(** The register order at the start of time step [t]. *)
Definition registers_at (self : TDMProgram) (t : nat) : list nat :=
  Nat.iter t (shift_registers (shift self) (band_slices (N self))) (register self).

(** A command [unroll] can emit at every time step: it has a target
    register, its register indices lie in the pool, its operation has an
    argument, and a free parameter in the first slot names a sequence that
    has a value for every time bin. *)
Definition unrollable (self : TDMProgram) (cmd : command) : Prop :=
  reg cmd <> [] /\
  (forall i, i ∈ reg cmd -> i < concurr_modes self) /\
  match p (op cmd) with
  | [] => False
  | Num _ :: _ => True
  | Sym i :: _ =>
      exists vals, tdm_params self !! i = Some vals /\
                   0 < timebins self <= length vals
  end.

Section ReshapeSchedule.
Context {V : Type}.





End ReshapeSchedule.

(* --------------------------------------------------------------------- *)
(* The remaining methods of the program object                             *)
(* --------------------------------------------------------------------- *)

(** [TDMProgram.roll]: the rolled circuit becomes the active circuit.
    Before a block has been left [rolled_circuit] is None and [roll] makes
    the active circuit None, a state the record, whose [circuit] is a list,
    does not hold; [None] stands for it. *)
Definition roll (self : TDMProgram) : option TDMProgram :=
  match rolled_circuit self with
  | Some c => Some (set_circuit c self)
  | None => None
  end.

(** [dict(pairs)]: a later pair with the same key replaces an earlier one. *)
Definition dict {V} (pairs : list (string * V)) : gmap string V :=
  fold_left (fun d kv => <[kv.1 := kv.2]> d) pairs ∅.

(** [TDMProgram.parameters]:
    [dict(zip([i.name for i in self.loop_vars], self.tdm_params))].
    Before [context] has run the attribute [loop_vars] does not exist; after
    a [context] with a single sequence it is a free parameter, which cannot
    be iterated over. *)
Definition parameters (self : TDMProgram) : result (gmap string (list pynum)) :=
  match loop_vars self with
  | None => Err AttributeError
  | Some (OneParameter _) => Err TypeError
  | Some (ParameterList names) => Ok (dict (zip names (tdm_params self)))
  end.

(** The exceptions that the range checks of [compile] let escape. *)
Definition range_check_error (tgt : string) (e : pyerror) : Prop :=
  e = KeyError \/ e = IndexError \/ e = AssertionError \/
  e = CircuitError tgt IncompatibleParameter.

(* --------------------------------------------------------------------- *)
(* The circuits as list objects                                            *)
(* --------------------------------------------------------------------- *)

(** [self.circuit], [self.rolled_circuit] and [self.unrolled_circuit] hold
    Python lists.  An assignment of one attribute to another makes both
    hold the same list, [copy()] and a list display make a new one, and
    [append] changes a list in place.  In this module a list object is a
    cell of a store, the three attributes hold references to cells, and
    [unroll] and the methods it calls are written over the store. *)
Module Heap.

(** A reference is the number of a cell; the store is the list of the list
    objects made so far, oldest first. *)
Abbreviation ref := nat (only parsing).
Abbreviation store := (list (list command)) (only parsing).

(** A new list object holding [l]: a list display or [l.copy()]. *)
Definition alloc (l : list command) (h : store) : ref * store :=
  (length h, h ++ [l]).

(** The program object; the attributes are those of [TDMProgram], with a
    reference where the attribute is a list of commands. *)
Record TDMObject := mk_obj {
  N : list nat;
  concurr_modes : nat;
  circuit : ref;
  timebins : nat;
  total_timebins : Z;
  spatial_modes : nat;
  measured_modes : list nat;
  rolled_circuit : option ref;
  unrolled_circuit : option ref;
  copies : Z;
  tdm_params : list (list pynum);
  shift : shift_policy;
  loop_vars : option loop_vars_value
}.

Definition set_circuit (c : ref) (s : TDMObject) : TDMObject :=
  mk_obj (N s) (concurr_modes s) c (timebins s) (total_timebins s) (spatial_modes s)
         (measured_modes s) (rolled_circuit s) (unrolled_circuit s)
         (copies s) (tdm_params s) (shift s) (loop_vars s).

Definition set_measured_modes (m : list nat) (s : TDMObject) : TDMObject :=
  mk_obj (N s) (concurr_modes s) (circuit s) (timebins s) (total_timebins s) (spatial_modes s)
         m (rolled_circuit s) (unrolled_circuit s)
         (copies s) (tdm_params s) (shift s) (loop_vars s).

Definition set_unrolled_circuit (u : option ref) (s : TDMObject) : TDMObject :=
  mk_obj (N s) (concurr_modes s) (circuit s) (timebins s) (total_timebins s) (spatial_modes s)
         (measured_modes s) (rolled_circuit s) u
         (copies s) (tdm_params s) (shift s) (loop_vars s).

(** [self.register] *)
Definition register (s : TDMObject) : list nat := seq 0 (concurr_modes s).

(** [Program.append]: the base class appends the command to the list that
    [self.circuit] holds; the list object stays the same one. *)
Definition append (o : operation) (modes : list nat) (h : store) (s : TDMObject) : store :=
  <[circuit s := (h !!! circuit s) ++ [mk_cmd o modes]]> h.

(** [apply_op]: only [params[0]] is looked at; the one effect is the
    [append]. *)
Definition apply_op (h : store) (self : TDMObject) (cmd : command) (q : list nat) (t : nat)
  : result store :=
  match p (op cmd) with
  | [] => Err IndexError
  | Sym arg_index :: rest =>
      do vals <- getitem (tdm_params self) arg_index;
      if Nat.eqb (timebins self) 0 then Err ZeroDivisionError
      else
        do v <- getitem vals (t mod timebins self);
        do modes <- get_modes cmd q;
        Ok (append (rebuild (op cmd) (Num v :: rest)) modes h self)
  | Num v :: rest =>
      do modes <- get_modes cmd q;
      Ok (append (rebuild (op cmd) (Num v :: rest)) modes h self)
  end.

(** The inner loop of [unroll] over the commands [cmds] of the rolled
    circuit. *)
Fixpoint apply_ops (h : store) (self : TDMObject) (cmds : list command) (q : list nat)
    (t : nat) : result store :=
  match cmds with
  | [] => Ok h
  | cmd :: cmds' => do h' <- apply_op h self cmd q t; apply_ops h' self cmds' q t
  end.

(** The outer loop of [unroll]: [n] time steps starting at step [t]; every
    step goes through the list that [self.rolled_circuit] holds then. *)
Fixpoint unroll_steps (rolled : ref) (sm : list (nat * nat)) (h : store)
    (self : TDMObject) (q : list nat) (t n : nat) : result (store * list nat) :=
  match n with
  | 0 => Ok (h, q)
  | S n' =>
      do h' <- apply_ops h self (h !!! rolled) q t;
      unroll_steps rolled sm h' self (shift_registers (shift self) sm q) (S t) n'
  end.

(** [TDMProgram.unroll]: with a cache, [self.circuit] is made to hold the
    cached list; without one, [self.circuit] is a new empty list, filled by
    the loop, and the cache is a copy of it. *)
Definition unroll (h : store) (self : TDMObject) : result (store * TDMObject) :=
  match unrolled_circuit self with
  | Some c => Ok (h, set_circuit c self)
  | None =>
      let (c, h) := alloc [] h in
      let self := set_circuit c self in
      let q := register self in
      let sm := band_slices (N self) in
      match rolled_circuit self with
      | None => Err TypeError
      | Some rolled =>
          do ms <- first_measured (h !!! rolled);
          let self := set_measured_modes (measured_modes self ++ ms) self in
          do r <- unroll_steps rolled sm h self q 0 (Z.to_nat (total_timebins self));
          let (u, h) := alloc (r.1 !!! circuit self) r.1 in
          Ok (h, set_unrolled_circuit (Some u) self)
      end
  end.

(** Every reference of the object is to a list of the store. *)
Definition valid (h : store) (s : TDMObject) : bool :=
  (circuit s <? length h)
  && from_option (fun r => r <? length h) true (rolled_circuit s)
  && from_option (fun r => r <? length h) true (unrolled_circuit s).

(** The program by value: every reference replaced by the commands of its
    list. *)
Definition contents (h : store) (s : TDMObject) : TDMProgram :=
  mk_prog (N s) (concurr_modes s) (h !!! circuit s) (timebins s) (total_timebins s)
          (spatial_modes s) (measured_modes s)
          (option_map (fun r => h !!! r) (rolled_circuit s))
          (option_map (fun r => h !!! r) (unrolled_circuit s))
          (copies s) (tdm_params s) (shift s) (loop_vars s).

(** A list attribute in a list object of its own. *)
Definition alloc_option (l : option (list command)) (h : store) : option ref * store :=
  match l with
  | Some l => let (r, h) := alloc l h in (Some r, h)
  | None => (None, h)
  end.

(** The object of a program whose circuits are lists of their own, none
    shared: the state [__exit__] leaves, where [rolled_circuit] is a copy of
    [circuit]. *)
Definition load (s : TDMProgram) : store * TDMObject :=
  let 'mk_prog Ns modes circ bins total spatial measured rolled unrolled cop seqs sh vars := s in
  let (c, h) := alloc circ [] in
  let (rolled, h) := alloc_option rolled h in
  let (unrolled, h) := alloc_option unrolled h in
  (h, mk_obj Ns modes c bins total spatial measured rolled unrolled cop seqs sh vars).

End Heap.

(* --------------------------------------------------------------------- *)
(* 7. Examples                                                             *)
(* --------------------------------------------------------------------- *)

Module Examples.

Definition f (x : Q) : param := Num (PyFloat x).
Definition Sgate (r phi : param) : operation := mk_op "Sgate" false [r; phi].
Definition BSgate (theta phi : param) : operation := mk_op "BSgate" false [theta; phi].
Definition Rgate (theta : param) : operation := mk_op "Rgate" false [theta].
Definition MeasureHomodyne (phi : param) : operation := mk_op "MeasureHomodyne" true [phi].
Definition MeasureFock : operation := mk_op "MeasureFock" true [].

(** The program of the class docstring. *)
Definition doc_body : list command :=
  [ mk_cmd (Sgate (f 0.7) (Num (PyInt 0))) [1];
    mk_cmd (BSgate (Sym 0) (f 0)) [0; 1];
    mk_cmd (MeasureHomodyne (Sym 1)) [0] ].

Definition doc_prog : result TDMProgram :=
  build [2] [[PyInt 1; PyInt 2]; [PyInt 3; PyInt 4]] (ObjInt 3) (ShiftStr "default") doc_body.

(** What unrolling the program of the docstring prints for one period of
    two time bins. *)
Definition doc_period : list command :=
  [ mk_cmd (Sgate (f 0.7) (Num (PyInt 0))) [1];
    mk_cmd (BSgate (Num (PyInt 1)) (f 0)) [0; 1];
    mk_cmd (MeasureHomodyne (Num (PyInt 3))) [0];
    mk_cmd (Sgate (f 0.7) (Num (PyInt 0))) [0];
    mk_cmd (BSgate (Num (PyInt 2)) (f 0)) [1; 0];
    mk_cmd (MeasureHomodyne (Num (PyInt 4))) [1] ].

(** The state of [doc_prog] once its block has been left. *)
Definition doc_state : TDMProgram :=
  match doc_prog with
  | Ok s => s
  | Err _ => __init__ [2]
  end.

(** A beamsplitter whose second argument is the free parameter, and a
    measurement without parameters. *)
Definition second_symbolic_body : list command :=
  [ mk_cmd (BSgate (f 0.5) (Sym 0)) [0; 1];
    mk_cmd (MeasureHomodyne (Sym 1)) [0] ].

Definition second_symbolic_prog : result TDMProgram :=
  build [2] [[PyInt 1; PyInt 2]; [PyInt 3; PyInt 4]] (ObjInt 1) (ShiftStr "default")
        second_symbolic_body.

Definition fock_prog : result TDMProgram :=
  build [2] [[PyInt 1; PyInt 2]] (ObjInt 1) (ShiftStr "default")
        [ mk_cmd (Rgate (Sym 0)) [0]; mk_cmd MeasureFock [0] ].

(** 257 bands of one mode each, every band measured once at the angle of
    the block's free parameter: [ops.MeasureHomodyne(p) | q[i]] for every
    [i], in a block over one sequence, where [p] is the parameter itself. *)
Definition wide_bands : list nat := replicate 257 1.
Definition wide_circuit : list command :=
  map (fun i => mk_cmd (MeasureHomodyne (Sym 0)) [i]) (seq 0 257).

(** The device of the test suite: its layout is
    [Sgate(p0) | 1], [BSgate(p1) | (1, 0)], [Rgate(p2) | 1],
    [MeasureHomodyne(p3) | 0]. *)
Definition pi : Q := 3.141592653589793.
Definition two_pi : Q := 6.283185307179586.

Definition tdm_device : DeviceSpec :=
  mk_device "tdm" (mk_modes 2 1 100)
    [ mk_lop "Sgate" [1] ["p0"];
      mk_lop "BSgate" [1; 0] ["p1"];
      mk_lop "Rgate" [1] ["p2"];
      mk_lop "MeasureHomodyne" [0] ["p3"] ]
    (list_to_map
       [ ("p0", [Value 0.5643]);
         ("p1", [Value 0; Interval 0 two_pi]);
         ("p2", [Value 0; Interval 0 pi; Value pi]);
         ("p3", [Value 0; Interval 0 two_pi]) ]).

(** The single loop of the test suite on that device. *)
Definition singleloop (alpha phi theta : list pynum) : result TDMProgram :=
  build [2] [alpha; phi; theta] (ObjInt 10) (ShiftStr "default")
    [ mk_cmd (Sgate (f 0.5643) (f 0)) [1];
      mk_cmd (BSgate (Sym 0) (f 0)) [1; 0];
      mk_cmd (Rgate (Sym 1)) [1];
      mk_cmd (MeasureHomodyne (Sym 2)) [0] ].

Definition alpha_ok : list pynum := [PyFloat 0.785; PyFloat 0; PyFloat 0.785; PyFloat 0].
Definition theta_ok : list pynum := [PyFloat 0; PyFloat 0; PyFloat 1.57; PyFloat 1.57].
(** Rotation angles of which the first lies outside [0, pi]. *)
Definition phi_bad : list pynum := [PyFloat 10; PyFloat 1.57; PyFloat 0; PyFloat 1.57].

(** The program of [test_assert_number_of_modes] with the given bands,
    one measurement per band, and [n] time bins. *)
Definition modes_prog (Ns : list nat) (n : nat) : result TDMProgram :=
  build Ns [replicate n (PyFloat 1); replicate n (PyFloat 1)] (ObjInt 3) (ShiftStr "default")
    ([ mk_cmd (Sgate (f 0.7) (Num (PyInt 0))) [1];
       mk_cmd (BSgate (Sym 0) (f 0)) [0; 1] ]
     ++ map (fun i => mk_cmd (MeasureHomodyne (Sym 1)) [i]) (seq 0 (length Ns))).

Definition small_device : DeviceSpec :=
  mk_device "None" (mk_modes 2 1 100) [] ∅.


Definition bare_prog : result TDMProgram :=
  build [1] [[PyFloat 0]] (ObjInt 1) (ShiftStr "default")
    [ mk_cmd (MeasureHomodyne (f 0.3)) [0] ].

(** Raw outcomes of two registers measured in turn. *)
Definition raw_samples : gmap nat (list nat) :=
  list_to_map [(0, [10; 30; 50]); (1, [20; 40; 60])].

(** The state a built program is in; [__init__ []] stands for a failed
    construction. *)
Definition state_of (r : result TDMProgram) : TDMProgram :=
  match r with
  | Ok s => s
  | Err _ => __init__ []
  end.

End Examples.

(* --------------------------------------------------------------------- *)
(* The shift keeps the register pool                                       *)
(* --------------------------------------------------------------------- *)

Section Shifting.
Context {A : Type}.
Implicit Types l q : list A.

Lemma shift_by_perm l n : shift_by l n ≡ₚ l.
Proof.
  unfold shift_by. rewrite Permutation_app_comm. by rewrite take_drop.
Qed.

Lemma shift_by_length l n : length (shift_by l n) = length l.
Proof. by rewrite shift_by_perm. Qed.

(** A slice and what lies around it make up the list. *)
Lemma slice_decompose l a b :
  a <= b -> take a l ++ get_slice l a b ++ drop b l = l.
Proof.
  intros Hab. unfold get_slice.
  replace (drop b l) with (drop (b - a) (drop a l)).
  - by rewrite take_drop, take_drop.
  - rewrite drop_drop. f_equal. lia.
Qed.

Lemma set_slice_perm l a b new :
  a <= b -> new ≡ₚ get_slice l a b -> set_slice l a b new ≡ₚ l.
Proof.
  intros Hab Hnew. unfold set_slice. rewrite Hnew. by rewrite slice_decompose.
Qed.
End Shifting.

Lemma band_slices_ordered Ns s : s ∈ band_slices Ns -> s.1 <= s.2.
Proof.
  unfold band_slices. intros Hs. apply list_elem_of_fmap in Hs as [i [-> _]].
  simpl. lia.
Qed.

Lemma shift_default_perm sm (q : list nat) :
  (forall s, s ∈ sm -> s.1 <= s.2) -> shift_default sm q ≡ₚ q.
Proof.
  unfold shift_default. revert q.
  induction sm as [|s sm IH]; intros q Hsm; simpl; [done|].
  rewrite IH by (intros s' Hs'; apply Hsm; by right).
  apply set_slice_perm; [apply Hsm; by left | apply shift_by_perm].
Qed.

Lemma shift_registers_perm pol Ns (q : list nat) :
  shift_registers pol (band_slices Ns) q ≡ₚ q.
Proof.
  destruct pol as [s|n|]; simpl; [|apply shift_by_perm|done].
  destruct (String.eqb s "default"); [|done].
  apply shift_default_perm, band_slices_ordered.
Qed.

Lemma iter_shift_perm pol Ns (q : list nat) t :
  Nat.iter t (shift_registers pol (band_slices Ns)) q ≡ₚ q.
Proof.
  induction t as [|t IH]; simpl; [done|]. by rewrite shift_registers_perm.
Qed.

(** With a single band that spans the pool, the default shift is the shift
    by one. *)
Lemma shift_default_single n (q : list nat) :
  length q = n -> shift_default (band_slices [n]) q = shift_by q 1.
Proof.
  intros Hlen. unfold shift_default, band_slices. simpl.
  unfold set_slice, get_slice. simpl.
  rewrite Nat.sub_0_r, drop_0, <- Hlen.
  rewrite firstn_all, drop_all. by rewrite app_nil_r.
Qed.

Example unroll_docstring :
  (do s <- Examples.doc_prog; do u <- unroll s; Ok (circuit u))
  = Ok (Examples.doc_period ++ Examples.doc_period ++ Examples.doc_period).
Proof. vm_compute. reflexivity. Qed.


(* --------------------------------------------------------------------- *)
(* What unrolling appends                                                  *)
(* --------------------------------------------------------------------- *)

Lemma set_circuit_same s : set_circuit (circuit s) s = s.
Proof. by destruct s. Qed.

Lemma bind_ok {A B} (r : result A) (k : A -> result B) b :
  bind r k = Ok b -> exists a, r = Ok a /\ k a = Ok b.
Proof. destruct r as [a|e]; simpl; [eauto | done]. Qed.

Lemma getitem_ok {A} (l : list A) i a : getitem l i = Ok a <-> l !! i = Some a.
Proof. unfold getitem. destruct (l !! i); split; intros H; by inversion H. Qed.

Lemma mapM_ok {A B} (f : A -> result B) l bs :
  mapM f l = Ok bs ->
  length bs = length l /\ forall i a, l !! i = Some a -> exists b, bs !! i = Some b /\ f a = Ok b.
Proof.
  revert bs. induction l as [|a l IH]; intros bs H; simpl in H.
  - inversion H; subst. split; [done|]. intros i a' Hi. by rewrite lookup_nil in Hi.
  - apply bind_ok in H as [b [Hb H]]. apply bind_ok in H as [bs' [Hbs H]].
    inversion H; subst. destruct (IH _ Hbs) as [Hlen Hall].
    split; [simpl; by rewrite Hlen|].
    intros [|i] a' Hi; simpl in *.
    + inversion Hi; subst. eauto.
    + by apply Hall.
Qed.

Lemma mapM_total {A B} (f : A -> result B) (l : list A) :
  (forall a, a ∈ l -> exists b, f a = Ok b) -> exists bs, mapM f l = Ok bs.
Proof.
  induction l as [|a l IH]; intros H; simpl; [eauto|].
  destruct (H a) as [b Hb]; [by left|]. rewrite Hb. simpl.
  destruct IH as [bs Hbs]; [intros a' Ha'; apply H; by right|].
  rewrite Hbs. simpl. eauto.
Qed.

Lemma apply_op_emitted self cmd q t :
  apply_op self cmd q t =
  do c <- emitted (tdm_params self) (timebins self) q t cmd;
  Ok (set_circuit (circuit self ++ [c]) self).
Proof.
  unfold apply_op, emitted, append.
  destruct (p (op cmd)) as [|[v|i] rest]; simpl; [done| |].
  - by destruct (get_modes cmd q).
  - destruct (getitem (tdm_params self) i) as [vals|]; simpl; [|done].
    destruct (timebins self =? 0); [done|].
    destruct (getitem vals _); simpl; [|done].
    by destruct (get_modes cmd q).
Qed.

Lemma apply_ops_emitted rc : forall self q t,
  apply_ops self rc q t =
  do cs <- mapM (emitted (tdm_params self) (timebins self) q t) rc;
  Ok (set_circuit (circuit self ++ cs) self).
Proof.
  induction rc as [|cmd rc IH]; intros self q t; simpl.
  - by rewrite app_nil_r, set_circuit_same.
  - rewrite apply_op_emitted.
    destruct (emitted _ _ q t cmd) as [c|]; simpl; [|done].
    rewrite IH. simpl.
    destruct (mapM _ rc) as [cs|]; simpl; [|done].
    unfold set_circuit; simpl. by rewrite <- app_assoc.
Qed.

Lemma unroll_steps_emitted rc sm n : forall self q t,
  unroll_steps rc sm self q t n =
  do r <- emit_steps (tdm_params self) (timebins self) (shift self) sm rc q t n;
  Ok (set_circuit (circuit self ++ r.1) self, r.2).
Proof.
  induction n as [|n IH]; intros self q t; simpl.
  - by rewrite app_nil_r, set_circuit_same.
  - rewrite apply_ops_emitted.
    destruct (mapM _ rc) as [cs|]; simpl; [|done].
    rewrite IH. simpl.
    destruct (emit_steps _ _ _ _ _ _ _ _) as [[cs' q']|]; simpl; [|done].
    unfold set_circuit; simpl. by rewrite <- app_assoc.
Qed.

(** The registers after [n] steps are the shift iterated [n] times. *)
Lemma emit_steps_registers tp tb pol sm rc n : forall q t r,
  emit_steps tp tb pol sm rc q t n = Ok r ->
  r.2 = Nat.iter n (shift_registers pol sm) q.
Proof.
  induction n as [|n IH]; intros q t r H; simpl in H.
  - by inversion H.
  - apply bind_ok in H as [cs [_ H]]. apply bind_ok in H as [r' [Hr' H]].
    inversion H; subst. rewrite Nat.iter_succ_r. simpl. by eapply IH.
Qed.

Lemma get_modes_from cmd q ms r : get_modes cmd q = Ok ms -> r ∈ ms -> r ∈ q.
Proof.
  unfold get_modes. destruct (reg cmd) as [|i inds] eqn:E; [done|].
  intros H Hr. apply mapM_ok in H as [Hlen Hall].
  apply list_elem_of_lookup in Hr as [j Hj].
  assert (is_Some ((i :: inds) !! j)) as [a Ha].
  { apply lookup_lt_is_Some. rewrite <- Hlen. by eapply lookup_lt_Some. }
  destruct (Hall _ _ Ha) as [b [Hb Hq]]. rewrite Hj in Hb. inversion Hb; subst.
  unfold getitem in Hq. destruct (q !! a) eqn:Hqa; [|done].
  inversion Hq; subst. by eapply list_elem_of_lookup_2.
Qed.

Lemma emitted_targets tp tb q t cmd c r :
  emitted tp tb q t cmd = Ok c -> r ∈ reg c -> r ∈ q.
Proof.
  unfold emitted. intros H Hr.
  destruct (p (op cmd)) as [|[v|i] rest]; [done| |].
  - apply bind_ok in H as [ms [Hms H]]. inversion H; subst. by eapply get_modes_from.
  - apply bind_ok in H as [vals [_ H]]. destruct (tb =? 0); [done|].
    apply bind_ok in H as [v [_ H]]. apply bind_ok in H as [ms [Hms H]].
    inversion H; subst. by eapply get_modes_from.
Qed.

Lemma emit_steps_targets tp tb pol Ns rc n : forall q t r c x,
  emit_steps tp tb pol (band_slices Ns) rc q t n = Ok r ->
  c ∈ r.1 -> x ∈ reg c -> x ∈ q.
Proof.
  induction n as [|n IH]; intros q t r c x H Hc Hx; simpl in H.
  - inversion H; subst. by apply elem_of_nil in Hc.
  - apply bind_ok in H as [cs [Hcs H]]. apply bind_ok in H as [r' [Hr' H]].
    inversion H; subst; simpl in Hc. apply elem_of_app in Hc as [Hc|Hc].
    + apply list_elem_of_lookup in Hc as [j Hj].
      apply mapM_ok in Hcs as [Hlen Hall].
      assert (is_Some (rc !! j)) as [cmd Hcmd].
      { apply lookup_lt_is_Some. rewrite <- Hlen. by eapply lookup_lt_Some. }
      destruct (Hall _ _ Hcmd) as [c' [Hc' He]]. rewrite Hj in Hc'. inversion Hc'; subst.
      by eapply emitted_targets.
    + rewrite <- (shift_registers_perm pol Ns q). by eapply IH.
Qed.

(* --------------------------------------------------------------------- *)
(* The unroll engine                                                       *)
(* --------------------------------------------------------------------- *)

Lemma registers_at_perm self t : registers_at self t ≡ₚ register self.
Proof. apply iter_shift_perm. Qed.

Lemma unroll_steps_registers self rc s t0 n r :
  shift s = shift self ->
  unroll_steps rc (band_slices (N self)) s (register self) t0 n = Ok r ->
  r.2 = registers_at self n.
Proof.
  intros Hsh H. rewrite unroll_steps_emitted in H.
  apply bind_ok in H as [r' [Hr' H]]. inversion H; subst; simpl.
  rewrite (emit_steps_registers _ _ _ _ _ _ _ _ _ Hr'). by rewrite Hsh.
Qed.

(** [unroll] in terms of the emitted commands. *)
Lemma unroll_eq self :
  unroll self =
  match unrolled_circuit self with
  | Some c => Ok (set_circuit c self)
  | None =>
      match rolled_circuit self with
      | None => Err TypeError
      | Some rc =>
          do ms <- first_measured rc;
          do r <- emit_steps (tdm_params self) (timebins self) (shift self)
                             (band_slices (N self)) rc (seq 0 (concurr_modes self)) 0
                             (Z.to_nat (total_timebins self));
          Ok (set_unrolled_circuit (Some r.1)
                (set_measured_modes (measured_modes self ++ ms) (set_circuit r.1 self)))
      end
  end.
Proof.
  unfold unroll. destruct (unrolled_circuit self) as [c|]; [done|]. simpl.
  destruct (rolled_circuit self) as [rc|]; [|done].
  destruct (first_measured rc) as [ms|]; [|done]. simpl.
  rewrite unroll_steps_emitted. simpl. unfold register. simpl.
  by destruct (emit_steps _ _ _ _ _ _ _ _) as [[cs q']|].
Qed.

(** What a first call of [unroll] computes. *)
Lemma unroll_fresh self rc u :
  unrolled_circuit self = None -> rolled_circuit self = Some rc ->
  unroll self = Ok u ->
  exists ms r,
    first_measured rc = Ok ms /\
    emit_steps (tdm_params self) (timebins self) (shift self) (band_slices (N self)) rc
               (register self) 0 (Z.to_nat (total_timebins self)) = Ok r /\
    circuit u = r.1 /\ unrolled_circuit u = Some r.1 /\
    measured_modes u = measured_modes self ++ ms.
Proof.
  intros Hnone Hrc H. rewrite unroll_eq, Hnone, Hrc in H.
  apply bind_ok in H as [ms [Hms H]]. apply bind_ok in H as [r [Hr H]].
  inversion H; subst. simpl. exists ms, r. done.
Qed.

(** C10. Under every shift policy (the default one, every integer amount,
    and anything else, which shifts nothing) the register order [q] with
    which [unroll] starts time step [t] is a permutation of the program's
    register pool [0, sum(N)) and has its size; the order the loop of
    [unroll] holds after [n] steps is that order; and every command of the
    circuit that a first call of [unroll] leaves acts on registers of the
    pool only. *)
Theorem unroll_keeps_register_pool (self : TDMProgram) :
  concurr_modes self = sum_list (N self) ->
  (forall t, registers_at self t ≡ₚ seq 0 (sum_list (N self)) /\
             length (registers_at self t) = sum_list (N self)) /\
  (forall rc s t0 n r,
      shift s = shift self ->
      unroll_steps rc (band_slices (N self)) s (register self) t0 n = Ok r ->
      r.2 = registers_at self n) /\
  (forall u, unrolled_circuit self = None -> unroll self = Ok u ->
             forall c x, c ∈ circuit u -> x ∈ reg c -> x < sum_list (N self)).
Proof.
  intros Hpool. split; [|split].
  - intros t. rewrite registers_at_perm. unfold register. rewrite Hpool.
    split; [done | apply length_seq].
  - intros rc s t0 n r. apply unroll_steps_registers.
  - intros u Hnone Hu c x Hc Hx.
    destruct (rolled_circuit self) as [rc|] eqn:Hrc.
    + destruct (unroll_fresh _ _ _ Hnone Hrc Hu) as (ms & r & _ & Hr & Hcirc & _).
      rewrite Hcirc in Hc.
      pose proof (emit_steps_targets _ _ _ _ _ _ _ _ _ _ _ Hr Hc Hx) as Hin.
      unfold register in Hin. rewrite Hpool in Hin.
      apply elem_of_seq in Hin. lia.
    + by rewrite unroll_eq, Hnone, Hrc in Hu.
Qed.

Lemma unroll_keeps_register_pool_witness :
  (forall t, registers_at Examples.doc_state t ≡ₚ seq 0 2 /\
             length (registers_at Examples.doc_state t) = 2) /\
  (forall rc s t0 n r,
      shift s = shift Examples.doc_state ->
      unroll_steps rc (band_slices [2]) s (register Examples.doc_state) t0 n = Ok r ->
      r.2 = registers_at Examples.doc_state n) /\
  (forall u, unrolled_circuit Examples.doc_state = None ->
             unroll Examples.doc_state = Ok u ->
             forall c x, c ∈ circuit u -> x ∈ reg c -> x < 2).
Proof. exact (unroll_keeps_register_pool Examples.doc_state eq_refl). Defined.

Lemma emit_steps_single_band tp tb rc n k : forall q t,
  length q = n ->
  emit_steps tp tb (ShiftStr "default") (band_slices [n]) rc q t k =
  emit_steps tp tb (ShiftInt 1) (band_slices [n]) rc q t k.
Proof.
  induction k as [|k IH]; intros q t Hq; [done|].
  cbn [emit_steps]. destruct (mapM _ rc) as [cs|]; [|done].
  cbn [bind shift_registers]. change (String.eqb "default" "default") with true.
  cbv iota. rewrite (shift_default_single n q Hq).
  rewrite IH; [done|]. by rewrite shift_by_length.
Qed.

(** C8. With exactly one spatial band (whose size is the size of the
    register pool) and the same parameter sequences, rolled circuit and
    repeat count, unrolling under the default shift and unrolling under the
    integer shift 1 give the same circuit, command for command; where one
    raises, the other raises the same exception. *)
Theorem default_shift_single_band_is_shift_one (self : TDMProgram) (n : nat) :
  N self = [n] -> concurr_modes self = sum_list (N self) ->
  result_map circuit (unroll (set_shift (ShiftStr "default") self)) =
  result_map circuit (unroll (set_shift (ShiftInt 1) self)).
Proof.
  intros HN Hpool. rewrite !unroll_eq. simpl.
  destruct (unrolled_circuit self) as [c|]; [done|].
  destruct (rolled_circuit self) as [rc|]; [|done].
  destruct (first_measured rc) as [ms|]; [|done]. simpl.
  rewrite Hpool, HN. replace (sum_list [n]) with n by (simpl; lia).
  rewrite (emit_steps_single_band _ _ _ n) by apply length_seq.
  by destruct (emit_steps _ _ _ _ _ _ _ _) as [[cs q']|].
Qed.

Lemma default_shift_single_band_is_shift_one_witness :
  result_map circuit (unroll (set_shift (ShiftStr "default") Examples.doc_state)) =
  result_map circuit (unroll (set_shift (ShiftInt 1) Examples.doc_state)).
Proof.
  exact (default_shift_single_band_is_shift_one Examples.doc_state 2 eq_refl eq_refl).
Defined.

Lemma unroll_cached self c :
  unrolled_circuit self = Some c -> unroll self = Ok (set_circuit c self).
Proof. intros H. unfold unroll. by rewrite H. Qed.

(** C1. [apply_op] resolves the first argument of a command and no other:
    a free parameter in the second slot is still there in the unrolled
    circuit, at every time step; and a command whose operation has no
    parameter makes [unroll] raise IndexError. *)
Theorem unroll_resolves_first_argument_only :
  (do s <- Examples.second_symbolic_prog; do u <- unroll s; Ok (circuit u)) =
  Ok [ mk_cmd (Examples.BSgate (Examples.f 0.5) (Sym 0)) [0; 1];
       mk_cmd (Examples.MeasureHomodyne (Num (PyInt 3))) [0];
       mk_cmd (Examples.BSgate (Examples.f 0.5) (Sym 0)) [1; 0];
       mk_cmd (Examples.MeasureHomodyne (Num (PyInt 4))) [1] ] /\
  (do s <- Examples.fock_prog; unroll s) = Err IndexError.
Proof. split; vm_compute; reflexivity. Qed.

(* --------------------------------------------------------------------- *)
(* Order and content of the unrolled circuit; register slicing             *)
(* --------------------------------------------------------------------- *)




Lemma emit_steps_order tp tb pol sm rc n : forall q t r,
  emit_steps tp tb pol sm rc q t n = Ok r ->
  length r.1 = n * length rc /\
  forall j k cmd, j < n -> rc !! k = Some cmd ->
    exists c, r.1 !! (j * length rc + k) = Some c /\
              emitted tp tb (Nat.iter j (shift_registers pol sm) q) (t + j) cmd = Ok c.
Proof.
  induction n as [|n IH]; intros q t r H; simpl in H.
  - inversion H; subst. split; [done|]. intros j k cmd Hj. lia.
  - apply bind_ok in H as [cs [Hcs H]]. apply bind_ok in H as [r' [Hr' H]].
    inversion H; subst. cbn [fst snd]. clear H.
    apply mapM_ok in Hcs as [Hlen Hall]. destruct (IH _ _ _ Hr') as [Hlen' Hall'].
    split; [rewrite length_app; lia|].
    intros [|j] k cmd Hj Hk.
    + destruct (Hall _ _ Hk) as [c [Hc He]]. exists c.
      rewrite Nat.add_0_r. simpl. split; [|done].
      rewrite lookup_app_l; [done|]. by eapply lookup_lt_Some.
    + destruct (Hall' j k cmd) as [c [Hc He]]; [lia|done|]. exists c. split.
      * rewrite lookup_app_r by (rewrite Hlen; simpl; lia).
        rewrite <- Hc. f_equal. rewrite Hlen. simpl. lia.
      * rewrite Nat.iter_succ_r. by replace (t + S j) with (S t + j) by lia.
Qed.

Lemma command_eta c : mk_cmd (op c) (reg c) = c.
Proof. by destruct c. Qed.

(** X1. A first call of [unroll] that returns leaves one command per time
    step and command of the rolled circuit, the steps in time order and the
    commands of a step in the order of the rolled circuit: the command at
    place [t * len(rolled) + k] is the one [apply_op] appends for the [k]-th
    rolled command at step [t], with the registers as the shifts before
    step [t] left them. *)
Theorem unroll_emission_order (self u : TDMProgram) (rc : list command) :
  unrolled_circuit self = None -> rolled_circuit self = Some rc ->
  unroll self = Ok u ->
  length (circuit u) = Z.to_nat (total_timebins self) * length rc /\
  forall t k cmd, t < Z.to_nat (total_timebins self) -> rc !! k = Some cmd ->
    exists c, circuit u !! (t * length rc + k) = Some c /\
              apply_op self cmd (registers_at self t) t = Ok (append (op c) (reg c) self).
Proof.
  intros Hnone Hrc Hu.
  destruct (unroll_fresh _ _ _ Hnone Hrc Hu) as (ms & r & _ & Hr & Hcirc & _).
  rewrite Hcirc. destruct (emit_steps_order _ _ _ _ _ _ _ _ _ Hr) as [Hlen Hall].
  split; [done|]. intros t k cmd Ht Hk.
  destruct (Hall t k cmd Ht Hk) as [c [Hc He]]. exists c. split; [done|].
  rewrite apply_op_emitted. unfold registers_at. simpl in He. rewrite He. simpl.
  unfold append. by rewrite command_eta.
Qed.

Lemma unroll_emission_order_witness :
  exists u, unroll Examples.doc_state = Ok u /\
            length (circuit u) =
            Z.to_nat (total_timebins Examples.doc_state) * length Examples.doc_body.
Proof.
  eexists. split; [vm_compute; reflexivity|].
  refine (proj1 (unroll_emission_order Examples.doc_state _ Examples.doc_body _ _ _));
    vm_compute; reflexivity.
Defined.

Lemma band_slices_snoc Ns n :
  band_slices (Ns ++ [n]) = band_slices Ns ++ [(sum_list Ns, sum_list Ns + n)].
Proof.
  unfold band_slices. rewrite length_app. simpl.
  rewrite Nat.add_1_r, seq_S, map_app. simpl. f_equal.
  - apply map_ext_in. intros i Hi. apply in_seq in Hi.
    rewrite take_app_le by lia.
    rewrite (lookup_total_app_l Ns [n] i) by lia. done.
  - rewrite take_app_length. rewrite (lookup_total_app_r Ns [n]) by lia.
    by rewrite Nat.sub_diag.
Qed.

(** X3. The band slices, one after the other, are the register pool: they
    cover [0, sum(N)) without gap or overlap, and slice [i] has [N[i]]
    registers. *)
Theorem band_slices_partition (Ns : list nat) :
  concat (map (fun s => seq s.1 (s.2 - s.1)) (band_slices Ns)) = seq 0 (sum_list Ns) /\
  map (fun s => s.2 - s.1) (band_slices Ns) = Ns.
Proof.
  induction Ns as [|n Ns [IH1 IH2]] using rev_ind; [done|].
  rewrite band_slices_snoc, !map_app, concat_app, IH1, IH2, sum_list_with_app. simpl.
  split.
  - rewrite app_nil_r, Nat.add_0_r.
    replace (sum_list Ns + n - sum_list Ns) with n by lia.
    by rewrite <- seq_app.
  - f_equal. f_equal. lia.
Qed.


(* --------------------------------------------------------------------- *)
(* The validators                                                          *)
(* --------------------------------------------------------------------- *)

(** The set of lengths has one element exactly when there is a sequence
    and all sequences have its length. *)
Lemma one_length_iff (ls : list nat) :
  size (list_to_set ls : gset nat) = 1 <->
  ls <> [] /\ forall a b, a ∈ ls -> b ∈ ls -> a = b.
Proof.
  split.
  - intros Hsz. split.
    + intros ->. by rewrite list_to_set_nil, size_empty in Hsz.
    + intros a b Ha Hb.
      apply (size_singleton_inv (list_to_set ls : gset nat)); [done| |];
        by apply elem_of_list_to_set.
  - intros [Hne Hall]. destruct ls as [|a ls]; [done|].
    assert ((list_to_set (a :: ls) : gset nat) = {[ a ]}) as ->; [|by apply size_singleton].
    apply set_eq. intros x. rewrite elem_of_list_to_set, elem_of_singleton. split.
    + intros Hx. apply Hall; [done | by left].
    + intros ->. by left.
Qed.

Lemma input_check_lengths args c :
  ~ (forall a b, a ∈ args -> b ∈ args -> length a = length b) ->
  input_check args c = Err (ValueError EqualLength).
Proof.
  intros Hne. unfold input_check.
  destruct (size _ =? 1) eqn:E; [|done].
  apply Nat.eqb_eq, one_length_iff in E as [_ Hall]. exfalso. apply Hne.
  intros a b Ha Hb. apply Hall; by apply list_elem_of_fmap_2.
Qed.

Lemma input_check_copies args c :
  args <> [] -> (forall a b, a ∈ args -> b ∈ args -> length a = length b) ->
  is_positive_int c = false ->
  input_check args c = Err TypeError.
Proof.
  intros Hne Hall Hc. unfold input_check.
  assert (size (list_to_set (map (fun param => length param) args) : gset nat) = 1) as ->.
  { apply one_length_iff. split.
    - by destruct args.
    - intros a b Ha Hb.
      apply list_elem_of_fmap in Ha as [x [-> Hx]].
      apply list_elem_of_fmap in Hb as [y [-> Hy]]. by apply Hall. }
  simpl. by rewrite Hc.
Qed.

Lemma input_check_fails args c :
  ~ (args <> [] /\ forall a b, a ∈ args -> b ∈ args -> length a = length b) ->
  input_check args c = Err (ValueError EqualLength).
Proof.
  intros Hfail. unfold input_check.
  destruct (size _ =? 1) eqn:E; [|done].
  apply Nat.eqb_eq, one_length_iff in E as [Hne Hall]. exfalso. apply Hfail. split.
  - intros ->. done.
  - intros a b Ha Hb. apply Hall; by apply list_elem_of_fmap_2.
Qed.

Lemma input_check_raises args c :
  is_positive_int c = false ->
  input_check args c = Err TypeError \/ input_check args c = Err (ValueError EqualLength).
Proof.
  intros Hc. unfold input_check. destruct (negb _); [by right|]. rewrite Hc. by left.
Qed.

(** C9 (amended). Sequences that fail the length check, because they do
    not all have the same length or because there is none, make [context]
    raise the length error, whatever [copies] is.  A [copies] that is not a
    positive integer makes [context] raise too: the TypeError when the
    sequences pass the length check (there is one, and all have its
    length), the length error when they fail it, since that check comes
    first; there is no third outcome.  Either way the exception leaves
    [context], before the block is entered: whatever commands the block
    holds, none reaches a circuit. *)
Theorem context_rejects_bad_input (self : TDMProgram) (args : list (list pynum))
    (c : pyobject) (sh : shift_policy) :
  (~ (forall a b, a ∈ args -> b ∈ args -> length a = length b) ->
   context self args c sh = Err (ValueError EqualLength) /\
   forall body, build (N self) args c sh body = Err (ValueError EqualLength)) /\
  (args = [] ->
   context self args c sh = Err (ValueError EqualLength) /\
   forall body, build (N self) args c sh body = Err (ValueError EqualLength)) /\
  (is_positive_int c = false ->
   (args <> [] /\ (forall a b, a ∈ args -> b ∈ args -> length a = length b) ->
    context self args c sh = Err TypeError /\
    forall body, build (N self) args c sh body = Err TypeError) /\
   (~ (args <> [] /\ forall a b, a ∈ args -> b ∈ args -> length a = length b) ->
    context self args c sh = Err (ValueError EqualLength) /\
    forall body, build (N self) args c sh body = Err (ValueError EqualLength)) /\
   (exists e, (e = TypeError \/ e = ValueError EqualLength) /\
              context self args c sh = Err e /\
              forall body, build (N self) args c sh body = Err e)).
Proof.
  unfold build, context. split; [|split; [|intros Hc; split; [|split]]].
  - intros Hne. by rewrite (input_check_lengths _ _ Hne).
  - intros ->. done.
  - intros [Hne Hall]. by rewrite (input_check_copies _ _ Hne Hall Hc).
  - intros Hfail. by rewrite (input_check_fails _ _ Hfail).
  - destruct (input_check_raises args c Hc) as [He|He]; rewrite He; eauto.
Qed.

Lemma context_rejects_bad_input_witness :
  context (__init__ [2]) [[PyInt 1]; [PyInt 1; PyInt 2]] (ObjInt 3) (ShiftStr "default")
  = Err (ValueError EqualLength) /\
  context (__init__ [2]) [] (ObjFloat 0.5) (ShiftStr "default")
  = Err (ValueError EqualLength) /\
  context (__init__ [2]) [[PyInt 1]; [PyInt 2]] (ObjFloat 0.5) (ShiftStr "default")
  = Err TypeError /\
  context (__init__ [2]) [[PyInt 1]; [PyInt 1; PyInt 2]] (ObjFloat 0.5) (ShiftStr "default")
  = Err (ValueError EqualLength).
Proof.
  assert (~ (forall a b : list pynum,
                a ∈ [[PyInt 1]; [PyInt 1; PyInt 2]] -> b ∈ [[PyInt 1]; [PyInt 1; PyInt 2]] ->
                length a = length b)) as Hdiff.
  { intros H. specialize (H [PyInt 1] [PyInt 1; PyInt 2]). simpl in H.
    assert (1 = 2) as E; [|lia]. apply H; [by left | right; by left]. }
  assert (forall a b : list pynum,
             a ∈ [[PyInt 1]; [PyInt 2]] -> b ∈ [[PyInt 1]; [PyInt 2]] ->
             length a = length b) as Hsame.
  { intros a b Ha Hb.
    apply elem_of_cons in Ha as [->|Ha]; [|apply elem_of_cons in Ha as [->|Ha]; [|by apply elem_of_nil in Ha]];
    (apply elem_of_cons in Hb as [->|Hb]; [|apply elem_of_cons in Hb as [->|Hb]; [|by apply elem_of_nil in Hb]]);
    reflexivity. }
  split; [|split; [|split]].
  - exact (proj1 (proj1 (context_rejects_bad_input (__init__ [2])
                           [[PyInt 1]; [PyInt 1; PyInt 2]] (ObjInt 3) (ShiftStr "default"))
                        Hdiff)).
  - exact (proj1 (proj1 (proj2 (context_rejects_bad_input (__init__ [2])
                                  [] (ObjFloat 0.5) (ShiftStr "default")))
                        eq_refl)).
  - refine (proj1 (proj1 (proj2 (proj2 (context_rejects_bad_input (__init__ [2])
                                          [[PyInt 1]; [PyInt 2]] (ObjFloat 0.5)
                                          (ShiftStr "default"))) eq_refl)
                         (conj _ Hsame))).
    discriminate.
  - refine (proj1 (proj1 (proj2 (proj2 (proj2 (context_rejects_bad_input (__init__ [2])
                                          [[PyInt 1]; [PyInt 1; PyInt 2]] (ObjFloat 0.5)
                                          (ShiftStr "default"))) eq_refl))
                         _)).
    intros [_ H]. exact (Hdiff H).
Defined.

(** C9 as stated fails: with sequences of unequal length and [copies = 0]
    what is raised is the length error, not the TypeError. *)
Lemma context_bad_copies_counterexample :
  is_positive_int (ObjInt 0) = false /\
  context (__init__ [2]) [[PyInt 1]; [PyInt 1; PyInt 2]] (ObjInt 0) (ShiftStr "default")
  = Err (ValueError EqualLength) /\
  context (__init__ [2]) [[PyInt 1]; [PyInt 1; PyInt 2]] (ObjInt 0) (ShiftStr "default")
  <> Err TypeError.
Proof. split; [reflexivity|]. split; [vm_compute; reflexivity | vm_compute; discriminate]. Qed.

(** For counts that CPython shares as objects, [validate_measurements]
    compares by value. *)
Lemma validate_measurements_small circ Ns :
  count_measured circ <= 256 ->
  validate_measurements circ Ns =
  if Nat.eqb (count_measured circ) 0 then Err (ValueError AtLeastOneMeasurement)
  else if Nat.eqb (count_measured circ) (length Ns) then Ok (count_measured circ)
  else Err (ValueError MeasurementsMatch).
Proof.
  intros Hsmall. unfold validate_measurements, int_is.
  destruct (count_measured circ =? 0); [done|].
  apply Nat.leb_le in Hsmall. rewrite Hsmall, andb_true_r.
  by destruct (count_measured circ =? length Ns).
Qed.

(** The counting loop sums the numbers of target registers of the
    measurements. *)
Lemma count_measured_sum circ :
  count_measured circ =
  sum_list (map (fun cmd => length (reg cmd)) (filter (fun cmd => op_is_measurement (op cmd) = true) circ)).
Proof.
  unfold count_measured.
  assert (forall acc,
    fold_left (fun spatial cmd =>
                 if op_is_measurement (op cmd) then spatial + length (reg cmd) else spatial)
              circ acc =
    acc + sum_list (map (fun cmd => length (reg cmd))
                        (filter (fun cmd => op_is_measurement (op cmd) = true) circ))) as H.
  { induction circ as [|cmd circ IH]; intros acc; simpl; [lia|].
    rewrite IH.
    destruct (op_is_measurement (op cmd)) eqn:E.
    - rewrite filter_cons_True by done. simpl. lia.
    - rewrite filter_cons_False by congruence. done. }
  by rewrite H.
Qed.

(** X4. Leaving the block without an exception, with a count of measured
    registers that CPython shares as an object (at most 256): the exit
    raises when the count is zero, raises when it differs from the number
    of bands, and otherwise returns with the count recorded as the number
    of spatial modes and the circuit frozen as the rolled circuit.  Leaving
    the block with an exception validates nothing. *)
Theorem exit_validates_small_counts (self : TDMProgram) :
  count_measured (circuit self) <= 256 ->
  (count_measured (circuit self) = 0 ->
   __exit__ self None = Err (ValueError AtLeastOneMeasurement)) /\
  (count_measured (circuit self) <> 0 ->
   count_measured (circuit self) <> length (N self) ->
   __exit__ self None = Err (ValueError MeasurementsMatch)) /\
  (count_measured (circuit self) <> 0 ->
   count_measured (circuit self) = length (N self) ->
   tdm_params self <> [] ->
   exists s', __exit__ self None = Ok s' /\
              spatial_modes s' = count_measured (circuit self) /\
              rolled_circuit s' = Some (circuit self)) /\
  (forall e, __exit__ self (Some e) = Ok self).
Proof.
  intros Hsmall. unfold __exit__.
  rewrite (validate_measurements_small _ _ Hsmall).
  split; [|split; [|split]].
  - intros ->. done.
  - intros H0 Hne. apply Nat.eqb_neq in H0, Hne. by rewrite H0, Hne.
  - intros H0 Heq Hargs. apply Nat.eqb_neq in H0. apply Nat.eqb_eq in Heq.
    rewrite H0, Heq. simpl. destruct (tdm_params self) as [|first rest]; [done|].
    simpl. eexists. split; [reflexivity|]. done.
  - done.
Qed.

Lemma exit_validates_small_counts_witness :
  exists s', __exit__ (set_circuit Examples.doc_body Examples.doc_state) None = Ok s' /\
             spatial_modes s' = 1 /\
             rolled_circuit s' = Some Examples.doc_body.
Proof.
  destruct (exit_validates_small_counts (set_circuit Examples.doc_body Examples.doc_state))
    as (_ & _ & Hok & _); [vm_compute; lia|].
  destruct Hok as (s' & Hrun & Hsp & Hrc); [vm_compute; lia | reflexivity | vm_compute; discriminate |].
  exists s'. split; [exact Hrun|]. split; [exact Hsp | exact Hrc].
Defined.

(** C5. With 257 bands and one measurement on each, the count of measured
    registers equals the number of bands, and [validate_measurements] raises
    all the same: it compares the two counts with [is not], which holds of
    equal integers above 256.  Leaving the block raises with it and
    records nothing. *)
Theorem validate_measurements_wide :
  count_measured Examples.wide_circuit = length Examples.wide_bands /\
  validate_measurements Examples.wide_circuit Examples.wide_bands
  = Err (ValueError MeasurementsMatch) /\
  build Examples.wide_bands [[PyInt 0]] (ObjInt 1) (ShiftStr "default") Examples.wide_circuit
  = Err (ValueError MeasurementsMatch).
Proof. repeat split; vm_compute; reflexivity. Qed.

(** C3. The program of the test suite with two spatial modes on a device
    with one: the third branch raises an AttributeError while it formats its
    message, not the error that names the spatial modes.  And a program with
    fewer concurrent modes than the device declares passes the check. *)
Theorem assert_number_of_modes_spatial :
  (do s <- Examples.modes_prog [1; 1] 50;
   Ok (timebins s, concurr_modes s, spatial_modes s)) = Ok (50, 2, 2) /\
  (do s <- Examples.modes_prog [1; 1] 50; assert_number_of_modes s Examples.small_device)
  = Err AttributeError /\
  (do s <- build [1] [[PyFloat 1]] (ObjInt 1) (ShiftStr "default")
                 [mk_cmd (Examples.MeasureHomodyne (Sym 0)) [0]];
   Ok (concurr_modes s, concurrent (modes Examples.small_device))) = Ok (1, 2) /\
  (do s <- build [1] [[PyFloat 1]] (ObjInt 1) (ShiftStr "default")
                 [mk_cmd (Examples.MeasureHomodyne (Sym 0)) [0]];
   assert_number_of_modes s Examples.small_device) = Ok tt.
Proof. repeat split; vm_compute; reflexivity. Qed.

(** C2. The single loop of the test suite with rotation angles of which
    one lies outside the range the device declares for [p2]: [compile]
    accepts the program.  Its [counter] starts at 0 for every operation, so
    the free parameter of the rotation gate is checked against the first
    sequence, not against its own. *)
Theorem compile_checks_first_sequence_only :
  option_map (in_range (PyFloat 10)) (gate_parameters Examples.tdm_device !! "p2")
  = Some false /\
  (do s <- Examples.singleloop Examples.alpha_ok Examples.phi_bad Examples.theta_ok;
   Ok (tdm_params s !! 1)) = Ok (Some Examples.phi_bad) /\
  (do s <- Examples.singleloop Examples.alpha_ok Examples.phi_bad Examples.theta_ok;
   compile s Examples.tdm_device) = Ok tt.
Proof. repeat split; vm_compute; reflexivity. Qed.

(* --------------------------------------------------------------------- *)
(* Programs that unroll                                                    *)
(* --------------------------------------------------------------------- *)

Lemma get_modes_total cmd (q : list nat) :
  reg cmd <> [] -> (forall i, i ∈ reg cmd -> i < length q) ->
  exists ms, get_modes cmd q = Ok ms.
Proof.
  intros Hne Hin. unfold get_modes. destruct (reg cmd) as [|i inds] eqn:E; [done|].
  apply mapM_total. intros a Ha.
  destruct (lookup_lt_is_Some_2 q a (Hin a Ha)) as [r Hr].
  exists r. by apply getitem_ok.
Qed.

Lemma emitted_total self cmd (q : list nat) t :
  unrollable self cmd -> length q = concurr_modes self ->
  exists c, emitted (tdm_params self) (timebins self) q t cmd = Ok c.
Proof.
  intros (Hne & Hin & Hp) Hq. unfold emitted.
  destruct (get_modes_total cmd q Hne) as [ms Hms]; [by rewrite Hq|].
  destruct (p (op cmd)) as [|[v|i] rest]; [done| |].
  - rewrite Hms. simpl. eauto.
  - destruct Hp as (vals & Hvals & Htb & Hlen).
    apply getitem_ok in Hvals. rewrite Hvals. simpl.
    destruct (timebins self =? 0) eqn:E; [apply Nat.eqb_eq in E; lia|].
    assert (t mod timebins self < length vals) as Hlt.
    { pose proof (Nat.mod_upper_bound t (timebins self)). lia. }
    destruct (lookup_lt_is_Some_2 vals _ Hlt) as [v Hv].
    apply getitem_ok in Hv. rewrite Hv. simpl. rewrite Hms. simpl. eauto.
Qed.

Lemma emit_steps_total self rc Ns n : forall (q : list nat) t,
  (forall cmd, cmd ∈ rc -> unrollable self cmd) -> length q = concurr_modes self ->
  exists r, emit_steps (tdm_params self) (timebins self) (shift self) (band_slices Ns)
                       rc q t n = Ok r.
Proof.
  induction n as [|n IH]; intros q t Hrc Hq; simpl; [eauto|].
  destruct (mapM_total (emitted (tdm_params self) (timebins self) q t) rc) as [cs Hcs].
  { intros cmd Hcmd. apply emitted_total; [by apply Hrc | done]. }
  rewrite Hcs. simpl.
  destruct (IH (shift_registers (shift self) (band_slices Ns) q) (S t) Hrc) as [r Hr].
  { by rewrite shift_registers_perm. }
  rewrite Hr. simpl. eauto.
Qed.

Lemma first_measured_total rc :
  (forall cmd, cmd ∈ rc -> reg cmd <> []) -> exists ms, first_measured rc = Ok ms.
Proof.
  induction rc as [|cmd rc IH]; intros H; simpl; [eauto|].
  destruct IH as [ms Hms]; [intros c Hc; apply H; by right|]. rewrite Hms.
  destruct (op_is_measurement (op cmd)); [|eauto].
  destruct (reg cmd) as [|r rs] eqn:E; [exfalso; by apply (H cmd); [left|]|].
  simpl. eauto.
Qed.

(** X5. A program whose rolled circuit holds only commands that can be
    emitted is unrolled: the first call of [unroll] returns. *)
Theorem unroll_returns (self : TDMProgram) (rc : list command) :
  unrolled_circuit self = None -> rolled_circuit self = Some rc ->
  (forall cmd, cmd ∈ rc -> unrollable self cmd) ->
  exists u, unroll self = Ok u.
Proof.
  intros Hnone Hrc Hwf. rewrite unroll_eq, Hnone, Hrc.
  destruct (first_measured_total rc) as [ms Hms]; [intros c Hc; by apply Hwf|].
  rewrite Hms. simpl.
  destruct (emit_steps_total self rc (N self) (Z.to_nat (total_timebins self))
                             (seq 0 (concurr_modes self)) 0 Hwf) as [r Hr];
    [apply length_seq|].
  rewrite Hr. simpl. eauto.
Qed.

Lemma unroll_returns_witness : exists u, unroll Examples.doc_state = Ok u.
Proof.
  apply (unroll_returns Examples.doc_state Examples.doc_body); [reflexivity..|].
  intros cmd Hcmd.
  repeat (apply elem_of_cons in Hcmd as [->|Hcmd];
          [split; [discriminate|]; split;
           [intros i Hi; repeat (apply elem_of_cons in Hi as [->|Hi]; [vm_compute; lia|]);
            by apply elem_of_nil in Hi
           |first [exact I | eexists; split; [reflexivity | vm_compute; lia]]]|]).
  by apply elem_of_nil in Hcmd.
Defined.

(** What a block that raises nothing leaves behind. *)
Lemma build_state Ns args c sh body s :
  build Ns args c sh body = Ok s ->
  N s = Ns /\ concurr_modes s = sum_list Ns /\ circuit s = body /\
  rolled_circuit s = Some body /\ unrolled_circuit s = None /\
  tdm_params s = args /\ shift s = sh /\ c = ObjInt (copies s) /\ (1 <= copies s)%Z /\
  (exists first, args !! 0 = Some first /\ timebins s = length first) /\
  (forall a, a ∈ args -> length a = timebins s) /\
  total_timebins s = (Z.of_nat (timebins s) * copies s)%Z /\
  validate_measurements body Ns = Ok (spatial_modes s).
Proof.
  unfold build, context, input_check. intros H.
  destruct (size _ =? 1) eqn:Hsz; [|done]. simpl in H.
  apply Nat.eqb_eq, one_length_iff in Hsz as [Hne Hall].
  destruct c as [z| | |]; try done. simpl in H.
  destruct (1 <=? z)%Z eqn:Hz; [|done]. simpl in H.
  unfold __exit__ in H. simpl in H.
  apply bind_ok in H as [sp [Hsp H]]. apply bind_ok in H as [first [Hfirst H]].
  inversion H; subst; simpl. apply getitem_ok in Hfirst.
  repeat split; try done.
  - by apply Z.leb_le.
  - by exists first.
  - intros a Ha. apply Hall; apply list_elem_of_fmap_2; [done|].
    by eapply list_elem_of_lookup_2.
Qed.

(* --------------------------------------------------------------------- *)
(* The sample reshaper                                                     *)
(* --------------------------------------------------------------------- *)

Lemma ceil_div_covers a b k : ceil_div a b = Ok k -> a <= k * b.
Proof.
  unfold ceil_div. destruct (b =? 0) eqn:E; [done|]. apply Nat.eqb_neq in E.
  intros H. inversion H; subst.
  pose proof (Nat.div_mod (a + b - 1) b E) as Hdm.
  pose proof (Nat.mod_upper_bound (a + b - 1) b E) as Hlt. nia.
Qed.

Lemma repeat_list_length {A} (l : list A) k : length (repeat_list l k) = k * length l.
Proof.
  unfold repeat_list. induction k as [|k IH]; simpl; [done|].
  rewrite length_app. simpl in IH. rewrite IH. lia.
Qed.

(** The schedule is cut to the number of recorded outcomes. *)
Lemma get_mode_order_length n Ns order :
  _get_mode_order n Ns = Ok order -> length order = n.
Proof.
  unfold _get_mode_order. intros H.
  apply bind_ok in H as [am [_ H]]. apply bind_ok in H as [k [Hk H]].
  inversion H; subst. apply ceil_div_covers in Hk.
  rewrite length_take, repeat_list_length. lia.
Qed.

Lemma sum_take_succ (Ns : list nat) i n :
  Ns !! i = Some n -> sum_list (take (i + 1) Ns) - sum_list (take i Ns) = n.
Proof.
  intros H. rewrite Nat.add_1_r, (take_S_r _ _ _ H), sum_list_with_app. simpl. lia.
Qed.



Section ReshapeProofs.
Context {V : Type}.
Implicit Types (all_samples new_samples : gmap nat (list V)).








End ReshapeProofs.


(* --------------------------------------------------------------------- *)
(* The device compiler                                                     *)
(* --------------------------------------------------------------------- *)

Lemma check_operations_each self device rc operations : forall i,
  check_operations self device rc operations i = Ok tt ->
  forall j operation cmd,
    operations !! j = Some operation -> rc !! (i + j) = Some cmd ->
    check_operation self device operation cmd = Ok tt.
Proof.
  induction operations as [|o operations IH]; intros i H j operation cmd Ho Hc.
  - by rewrite lookup_nil in Ho.
  - simpl in H. apply bind_ok in H as [cmd0 [Hcmd0 H]].
    apply bind_ok in H as [[] [Hchk H]].
    destruct j as [|j]; simpl in Ho.
    + inversion Ho; subst. rewrite Nat.add_0_r in Hc.
      unfold getitem in Hcmd0. rewrite Hc in Hcmd0. by inversion Hcmd0; subst.
    + apply (IH (S i) H j); [done|]. by replace (S i + j) with (i + S j) by lia.
Qed.





(* --------------------------------------------------------------------- *)
(* Rolling, and the parameter table                                        *)
(* --------------------------------------------------------------------- *)

Lemma unroll_keeps_rolled self u :
  unroll self = Ok u -> rolled_circuit u = rolled_circuit self.
Proof.
  rewrite unroll_eq. destruct (unrolled_circuit self) as [c|].
  - intros H. by inversion H.
  - destruct (rolled_circuit self) as [rc|] eqn:Hrc; [|done]. intros H.
    apply bind_ok in H as [ms [_ H]]. apply bind_ok in H as [r [_ H]].
    inversion H; subst. simpl. done.
Qed.

Lemma unroll_caches self u : unroll self = Ok u -> unrolled_circuit u = Some (circuit u).
Proof.
  intros Hu. rewrite unroll_eq in Hu. destruct (unrolled_circuit self) as [c|] eqn:Hc.
  - by inversion Hu; subst.
  - destruct (rolled_circuit self) as [rc|]; [|done].
    apply bind_ok in Hu as [ms [_ Hu]]. apply bind_ok in Hu as [r [_ Hu]].
    by inversion Hu.
Qed.

(** X6. Rolling after unrolling gives back the rolled circuit as the active
    circuit, exactly, and leaves the cache alone; unrolling again then
    gives back the state the first unrolling produced.  Rolling twice is
    rolling once. *)
Theorem roll_after_unroll (self u : TDMProgram) (rc : list command) :
  rolled_circuit self = Some rc -> unroll self = Ok u ->
  exists r,
    roll u = Some r /\
    circuit r = rc /\
    rolled_circuit r = Some rc /\
    unrolled_circuit r = Some (circuit u) /\
    roll r = Some r /\
    unroll r = Ok u.
Proof.
  intros Hrc Hu.
  pose proof (unroll_caches _ _ Hu) as Hcache.
  pose proof (unroll_keeps_rolled _ _ Hu) as Hrolled. rewrite Hrc in Hrolled.
  exists (set_circuit rc u). unfold roll. rewrite Hrolled. simpl. rewrite Hrolled.
  repeat split; try done.
  rewrite unroll_eq. simpl. rewrite Hcache. f_equal.
  destruct u; simpl in *; by subst.
Qed.

Lemma roll_after_unroll_witness :
  exists r, roll (Examples.state_of (unroll Examples.doc_state)) = Some r /\
            circuit r = Examples.doc_body.
Proof.
  destruct (roll_after_unroll Examples.doc_state
              (Examples.state_of (unroll Examples.doc_state)) Examples.doc_body)
    as (r & Hroll & Hcirc & _); [reflexivity | vm_compute; reflexivity |].
  exists r. split; [exact Hroll | exact Hcirc].
Defined.

Lemma dict_snoc {V} (pairs : list (string * V)) k v :
  dict (pairs ++ [(k, v)]) = <[k := v]> (dict pairs).
Proof. unfold dict. by rewrite fold_left_app. Qed.

Lemma loop_var_name_inj i j : loop_var_name i = loop_var_name j -> i = j.
Proof.
  unfold loop_var_name. intros H. inversion H as [H'].
  change ("" +:+ pretty i) with (pretty i) in H'.
  change ("" +:+ pretty j) with (pretty j) in H'.
  by apply (inj pretty) in H'.
Qed.

Lemma parameters_snoc tp (x : list pynum) :
  dict (zip (map loop_var_name (seq 0 (length (tp ++ [x])))) (tp ++ [x])) =
  <[loop_var_name (length tp) := x]>
    (dict (zip (map loop_var_name (seq 0 (length tp))) tp)).
Proof.
  rewrite length_app. simpl. rewrite Nat.add_1_r, seq_S, map_app. simpl.
  rewrite zip_with_app by (by rewrite length_map, length_seq).
  simpl. apply dict_snoc.
Qed.

(** The table built from the names [p0], [p1], ... and the sequences. *)
Lemma dict_loop_vars (tp : list (list pynum)) :
  let table := dict (zip (map loop_var_name (seq 0 (length tp))) tp) in
  (forall i, table !! loop_var_name i = tp !! i) /\
  size table = length tp /\
  (forall k vals, table !! k = Some vals ->
                  exists i, k = loop_var_name i /\ tp !! i = Some vals).
Proof.
  simpl. induction tp as [|x tp (IH1 & IH2 & IH3)] using rev_ind.
  - split; [|split]; [intros i | done | intros k vals H]; by rewrite ?lookup_nil.
  - rewrite parameters_snoc. split; [|split].
    + intros i. destruct (decide (i = length tp)) as [->|Hne].
      * rewrite lookup_insert_eq. by rewrite list_lookup_middle.
      * rewrite lookup_insert_ne by (intros E; by apply loop_var_name_inj in E).
        rewrite IH1. destruct (decide (i < length tp)) as [Hlt|Hge].
        -- by rewrite lookup_app_l.
        -- rewrite !lookup_ge_None_2; [done| |lia]. rewrite length_app. simpl. lia.
    + rewrite map_size_insert_None.
      * rewrite IH2, length_app. simpl. lia.
      * rewrite IH1. apply lookup_ge_None_2. lia.
    + intros k vals H. destruct (decide (k = loop_var_name (length tp))) as [->|Hne].
      * rewrite lookup_insert_eq in H. inversion H; subst. exists (length tp).
        split; [done|]. by rewrite list_lookup_middle.
      * rewrite lookup_insert_ne in H by done. destruct (IH3 _ _ H) as [i [-> Hi]].
        exists i. split; [done|]. rewrite lookup_app_l; [done|]. by eapply lookup_lt_Some.
Qed.

(** X7. The [parameters] property after [context] has bound the sequences
    [args].  With two sequences or more it is the table that maps the name
    [p<i>] to the [i]-th sequence, for every [i], with one entry per
    sequence and no other key.  With a single sequence [loop_vars] is the
    free parameter itself and not a list, and reading the property raises
    TypeError.  On a program for which [context] has not run it raises
    AttributeError. *)
Theorem parameters_table (self s : TDMProgram) (args : list (list pynum))
    (c : pyobject) (sh : shift_policy) :
  context self args c sh = Ok s ->
  (length args = 1 -> parameters s = Err TypeError) /\
  (length args <> 1 ->
   exists table,
     parameters s = Ok table /\
     (forall i, table !! loop_var_name i = args !! i) /\
     size table = length args /\
     (forall k vals, table !! k = Some vals ->
                     exists i, k = loop_var_name i /\ args !! i = Some vals)) /\
  (forall Ns, parameters (__init__ Ns) = Err AttributeError).
Proof.
  intros H. unfold context in H. apply bind_ok in H as [[] [_ H]].
  destruct c as [z| | |]; try done. inversion H; subst s. clear H.
  unfold parameters. simpl. split; [|split]; [| |done].
  - intros Hlen. destruct args as [|a [|b args]]; try done.
  - intros Hlen. exists (dict (zip (map loop_var_name (seq 0 (length args))) args)).
    split; [|apply dict_loop_vars].
    destruct args as [|a [|b args]]; done.
Qed.

Lemma parameters_table_witness :
  exists table,
    parameters Examples.doc_state = Ok table /\
    table !! "p0" = Some [PyInt 1; PyInt 2] /\
    table !! "p1" = Some [PyInt 3; PyInt 4] /\
    size table = 2.
Proof.
  destruct (parameters_table (__init__ [2])
              (Examples.state_of (context (__init__ [2])
                 [[PyInt 1; PyInt 2]; [PyInt 3; PyInt 4]] (ObjInt 3) (ShiftStr "default")))
              [[PyInt 1; PyInt 2]; [PyInt 3; PyInt 4]] (ObjInt 3) (ShiftStr "default"))
    as (_ & Htab & _); [vm_compute; reflexivity|].
  destruct Htab as (table & Hpar & Hlook & Hsize & _); [simpl; lia|].
  exists table. split; [exact Hpar|]. split; [exact (Hlook 0)|]. split; [exact (Hlook 1)|].
  exact Hsize.
Defined.

(* --------------------------------------------------------------------- *)
(* [shift_by] as a rotation                                                *)
(* --------------------------------------------------------------------- *)

Lemma mod_wrap x n : n <= x < 2 * n -> x mod n = x - n.
Proof.
  intros H. symmetry. apply (Nat.mod_unique x n 1); lia.
Qed.

Section ShiftAlgebra.
Context {A : Type}.
Implicit Types l : list A.

Lemma shift_by_nat l (k : nat) : shift_by l (Z.of_nat k) = drop k l ++ take k l.
Proof.
  unfold shift_by, slice_bound.
  destruct (Z.of_nat k <? 0)%Z eqn:E; [apply Z.ltb_lt in E; lia|].
  by rewrite Nat2Z.id.
Qed.

Lemma shift_by_nat_lookup l (k i : nat) :
  k <= length l -> i < length l ->
  shift_by l (Z.of_nat k) !! i = l !! ((i + k) mod length l).
Proof.
  intros Hk Hi. rewrite shift_by_nat.
  destruct (decide (i < length l - k)) as [Hlt|Hge].
  - rewrite lookup_app_l by (rewrite length_drop; lia).
    rewrite lookup_drop, Nat.mod_small by lia. f_equal. lia.
  - rewrite lookup_app_r by (rewrite length_drop; lia).
    rewrite length_drop, lookup_take_lt by lia.
    rewrite mod_wrap by lia. f_equal. lia.
Qed.

(** X8. A shift by [n] with [0 <= n <= len(l)] is the rotation to the left
    by [n]: position [i] of the result holds what position [(i + n) mod
    len(l)] held.  A shift by more than the length, to either side, does
    not wrap around: it leaves the list as it is. *)
Theorem shift_by_rotates (l : list A) (n : Z) :
  ((0 <= n <= Z.of_nat (length l))%Z ->
   forall i, i < length l ->
             shift_by l n !! i = l !! ((i + Z.to_nat n) mod length l)) /\
  ((Z.of_nat (length l) <= n)%Z -> shift_by l n = l) /\
  ((n <= - Z.of_nat (length l))%Z -> shift_by l n = l).
Proof.
  split; [|split].
  - intros Hn i Hi. rewrite <- (Z2Nat.id n) at 1 by lia.
    apply shift_by_nat_lookup; lia.
  - intros Hn. rewrite <- (Z2Nat.id n) by lia. rewrite shift_by_nat.
    rewrite drop_ge, take_ge by lia. done.
  - intros Hn. unfold shift_by, slice_bound.
    destruct (n <? 0)%Z eqn:E.
    + replace (Z.to_nat (Z.max 0 (Z.of_nat (length l) + n))) with 0 by lia. simpl.
      by rewrite app_nil_r.
    + apply Z.ltb_ge in E. assert (length l = 0) as Hl by lia.
      destruct l; [|done]. by destruct (Z.to_nat n).
Qed.


(** X9. Shifts compose and are undone: two shifts to the left that together
    stay within the list are the shift by their sum, and the shift by [-n]
    undoes the shift by [n]. *)
Theorem shift_by_composes (l : list A) (a b : Z) :
  (0 <= a)%Z -> (0 <= b)%Z -> (a + b <= Z.of_nat (length l))%Z ->
  shift_by (shift_by l a) b = shift_by l (a + b) /\
  shift_by (shift_by l a) (- a) = l.
Proof.
  intros Ha Hb Hab.
  rewrite <- (Z2Nat.id a) at 1 2 3 by lia.
  rewrite <- (Z2Nat.id b) at 1 2 by lia.
  rewrite <- Nat2Z.inj_add.
  set (ka := Z.to_nat a). set (kb := Z.to_nat b).
  assert (ka + kb <= length l) as Hk by lia.
  split.
  - rewrite !shift_by_nat.
    rewrite drop_app_le by (rewrite length_drop; lia).
    rewrite take_app_le by (rewrite length_drop; lia).
    rewrite drop_drop, <- app_assoc. f_equal. apply take_take_drop.
  - rewrite shift_by_nat. unfold shift_by, slice_bound.
    rewrite length_app, length_drop, length_take.
    destruct (- a <? 0)%Z eqn:E.
    + replace (Z.to_nat (Z.max 0 (Z.of_nat (length l - ka + ka `min` length l) + - a)))
        with (length l - ka) by lia.
      rewrite drop_app_length' by (rewrite length_drop; lia).
      rewrite take_app_length' by (rewrite length_drop; lia).
      apply take_drop.
    + apply Z.ltb_ge in E. assert (ka = 0) as -> by lia.
      replace (Z.to_nat (- a)) with 0 by lia. simpl. rewrite drop_0. by rewrite !app_nil_r.
Qed.


Lemma iter_shift_one_length l t :
  length (Nat.iter t (fun q => shift_by q 1) l) = length l.
Proof. induction t as [|t IH]; simpl; [done|]. by rewrite shift_by_length. Qed.

(** A shift by one, [t] times over. *)
Lemma iter_shift_one_lookup l t : forall i,
  i < length l ->
  Nat.iter t (fun q => shift_by q 1) l !! i = l !! ((i + t) mod length l).
Proof.
  induction t as [|t IH]; intros i Hi.
  - simpl. by rewrite Nat.add_0_r, Nat.mod_small.
  - simpl. change 1%Z with (Z.of_nat 1).
    rewrite shift_by_nat_lookup; rewrite ?iter_shift_one_length; [|lia|lia].
    rewrite IH by (apply Nat.mod_upper_bound; lia).
    f_equal. rewrite Nat.Div0.add_mod_idemp_l. f_equal. lia.
Qed.

End ShiftAlgebra.

Lemma shift_by_rotates_witness :
  shift_by [10; 20; 30] 1 !! 2 = [10; 20; 30] !! ((2 + Z.to_nat 1) mod 3).
Proof.
  apply (proj1 (shift_by_rotates [10; 20; 30] 1)); [simpl; lia | simpl; lia].
Defined.

Lemma shift_by_composes_witness :
  shift_by (shift_by [10; 20; 30] 1) 2 = shift_by [10; 20; 30] (1 + 2) /\
  shift_by (shift_by [10; 20; 30] 1) (- 1) = [10; 20; 30].
Proof. apply (shift_by_composes [10; 20; 30] 1 2); simpl; lia. Defined.

(* --------------------------------------------------------------------- *)
(* What [compile] accepts and how it fails                                 *)
(* --------------------------------------------------------------------- *)

Lemma check_params_ok tgt gp tp ps names : forall k counter,
  check_params tgt gp tp ps names k counter = Ok tt ->
  forall j name, names !! j = Some name ->
    exists r a, gp !! name = Some r /\ ps !! (k + j) = Some a /\
                forall x, a = Num (PyFloat x) -> in_range (PyFloat x) r = true.
Proof.
  induction names as [|name0 names IH]; intros k counter H j name Hj.
  - by rewrite lookup_nil in Hj.
  - simpl in H. destruct (gp !! name0) as [r|] eqn:Hr; [|done].
    apply bind_ok in H as [a [Ha H]]. apply getitem_ok in Ha.
    destruct j as [|j]; simpl in Hj.
    + inversion Hj; subst name0. exists r, a. rewrite Nat.add_0_r.
      split; [done|]. split; [done|]. intros x ->.
      by destruct (in_range (PyFloat x) r).
    + replace (k + S j) with (S k + j) by lia.
      destruct a as [[z|x]|i].
      * apply bind_ok in H as [vals [_ H]]. apply bind_ok in H as [[] [_ H]]. by eapply IH.
      * destruct (in_range (PyFloat x) r); [|done]. by eapply IH.
      * apply bind_ok in H as [vals [_ H]]. apply bind_ok in H as [[] [_ H]]. by eapply IH.
Qed.

Lemma check_params_err tgt gp tp ps names : forall k counter e,
  check_params tgt gp tp ps names k counter = Err e -> range_check_error tgt e.
Proof.
  unfold range_check_error.
  induction names as [|name0 names IH]; intros k counter e H; simpl in H; [done|].
  destruct (gp !! name0) as [r|]; [|inversion H; auto].
  destruct (getitem ps k) as [a|e'] eqn:Ha; simpl in H.
  - assert (forall c', (do local_p_vals <- getitem tp counter;
                        do _ <- check_values tgt local_p_vals r;
                        check_params tgt gp tp ps names (S k) c') = Err e ->
              range_check_error tgt e) as Hsym.
    { intros c' H'. destruct (getitem tp counter) as [vals|e''] eqn:Hv; simpl in H'.
      - unfold check_values in H'. destruct (forallb _ vals); simpl in H'.
        + by eapply IH.
        + inversion H'. unfold range_check_error. auto.
      - unfold getitem in Hv. destruct (tp !! counter); inversion Hv; subst.
        inversion H'. unfold range_check_error. auto. }
    destruct a as [[z|x]|i]; [by eapply Hsym| |by eapply Hsym].
    destruct (in_range (PyFloat x) r); [by eapply IH | inversion H; auto].
  - unfold getitem in Ha. destruct (ps !! k); inversion Ha; subst. inversion H; auto.
Qed.

Lemma check_operations_err self device rc operations : forall i e,
  check_operations self device rc operations i = Err e ->
  range_check_error (target device) e.
Proof.
  induction operations as [|o operations IH]; intros i e H; simpl in H; [done|].
  destruct (getitem rc i) as [cmd|e'] eqn:Hc; simpl in H.
  - destruct (check_operation self device o cmd) as [[]|e'] eqn:Ho; simpl in H.
    + by eapply IH.
    + inversion H; subst. unfold check_operation in Ho.
      destruct (_ <? _); simpl in Ho.
      * unfold assert_rest_zero in Ho. destruct (forallb _ _); simpl in Ho.
        -- by eapply check_params_err.
        -- inversion Ho. unfold range_check_error. auto.
      * by eapply check_params_err.
  - unfold getitem in Hc. destruct (rc !! i); inversion Hc; subst.
    inversion H. unfold range_check_error. auto.
Qed.

(** X10. A program [compile] accepts has the layout's operations, name for
    name, on the layout's modes, register for register; every argument name
    the layout declares has a range in the device and an argument in the
    command; and every such argument that is a float lies in the range
    declared for its name. *)
Theorem compile_accepts_compatible (self : TDMProgram) (device : DeviceSpec)
    (rc : list command) :
  rolled_circuit self = Some rc -> compile self device = Ok tt ->
  map (fun cmd => op_class (op cmd)) rc = map lop_op (layout device) /\
  map reg rc = map lop_modes (layout device) /\
  forall i operation cmd,
    layout device !! i = Some operation -> rc !! i = Some cmd ->
    forall k name, lop_args operation !! k = Some name ->
      exists r a, gate_parameters device !! name = Some r /\
                  p (op cmd) !! k = Some a /\
                  forall x, a = Num (PyFloat x) -> in_range (PyFloat x) r = true.
Proof.
  intros Hrc H. unfold compile in H. rewrite Hrc in H.
  destruct (bool_decide (map lop_op (layout device) = map (fun cmd => op_class (op cmd)) rc))
    eqn:Hnames; [|done].
  destruct (bool_decide (map reg rc = map lop_modes (layout device))) eqn:Hmodes; [|done].
  simpl in H. apply bool_decide_eq_true in Hnames, Hmodes.
  split; [done|]. split; [done|].
  intros i operation cmd Ho Hcmd k name Hk.
  pose proof (check_operations_each _ _ _ _ 0 H i operation cmd Ho Hcmd) as Hop.
  unfold check_operation in Hop. apply bind_ok in Hop as [[] [_ Hop]].
  by apply (check_params_ok _ _ _ _ _ 0 0 Hop k name Hk).
Qed.

Lemma compile_accepts_compatible_witness :
  map (fun cmd => op_class (op cmd))
      (circuit (Examples.state_of (Examples.singleloop Examples.alpha_ok Examples.alpha_ok
                                                       Examples.theta_ok)))
  = map lop_op (layout Examples.tdm_device).
Proof.
  apply (compile_accepts_compatible
           (Examples.state_of (Examples.singleloop Examples.alpha_ok Examples.alpha_ok
                                                   Examples.theta_ok))
           Examples.tdm_device); vm_compute; reflexivity.
Defined.

(** X11. With a rolled circuit, [compile] raises the topology error exactly
    when the lists of operation names differ (in length, order or name),
    and the mode-ordering error exactly when the names agree and the lists
    of target registers differ; any other exception comes from the range
    checks, and every CircuitError names the device's target. *)
Theorem compile_errors (self : TDMProgram) (device : DeviceSpec) (rc : list command) :
  rolled_circuit self = Some rc ->
  (compile self device = Err (CircuitError (target device) IncompatibleTopology) <->
   map lop_op (layout device) <> map (fun cmd => op_class (op cmd)) rc) /\
  (compile self device = Err (CircuitError (target device) IncompatibleModeOrdering) <->
   map lop_op (layout device) = map (fun cmd => op_class (op cmd)) rc /\
   map reg rc <> map lop_modes (layout device)) /\
  (forall e, compile self device = Err e ->
     e = CircuitError (target device) IncompatibleTopology \/
     e = CircuitError (target device) IncompatibleModeOrdering \/
     range_check_error (target device) e).
Proof.
  intros Hrc. unfold compile. rewrite Hrc.
  destruct (bool_decide (map lop_op (layout device) = map (fun cmd => op_class (op cmd)) rc))
    eqn:Hnames; simpl.
  - apply bool_decide_eq_true in Hnames.
    destruct (bool_decide (map reg rc = map lop_modes (layout device))) eqn:Hmodes; simpl.
    + apply bool_decide_eq_true in Hmodes.
      assert (forall e, check_operations self device rc (layout device) 0 = Err e ->
                        range_check_error (target device) e) as Herr
        by (intros e; apply check_operations_err).
      split; [|split].
      * split; [|done]. intros H. apply Herr in H.
        destruct H as [H|[H|[H|H]]]; discriminate.
      * split; [|by intros [_ ?]]. intros H. apply Herr in H.
        destruct H as [H|[H|[H|H]]]; discriminate.
      * intros e H. right. right. by apply Herr.
    + apply bool_decide_eq_false in Hmodes.
      split; [|split].
      * split; [discriminate | done].
      * split; [done | done].
      * intros e H. inversion H. auto.
  - apply bool_decide_eq_false in Hnames.
    split; [|split].
    + split; [done | done].
    + split; [discriminate | by intros [? _]].
    + intros e H. inversion H. auto.
Qed.

Lemma compile_errors_witness :
  compile (Examples.state_of Examples.bare_prog) Examples.tdm_device
  = Err (CircuitError "tdm" IncompatibleTopology).
Proof.
  apply (proj1 (compile_errors (Examples.state_of Examples.bare_prog) Examples.tdm_device
                               _ eq_refl)).
  vm_compute. discriminate.
Defined.

(* --------------------------------------------------------------------- *)
(* The arguments of the unrolled circuit over time                         *)
(* --------------------------------------------------------------------- *)

Lemma operation_eta o : mk_op (op_class o) (op_is_measurement o) (p o) = o.
Proof. by destruct o. Qed.

Lemma emitted_constant tp tb q t cmd c v rest :
  p (op cmd) = Num v :: rest -> emitted tp tb q t cmd = Ok c -> op c = op cmd.
Proof.
  unfold emitted. intros Hp H. rewrite Hp in H.
  apply bind_ok in H as [ms [_ H]]. inversion H; subst. simpl.
  unfold rebuild. rewrite <- Hp. apply operation_eta.
Qed.

Lemma emitted_same_bin tp tb q q' t t' cmd c c' :
  t mod tb = t' mod tb ->
  emitted tp tb q t cmd = Ok c -> emitted tp tb q' t' cmd = Ok c' -> op c' = op c.
Proof.
  unfold emitted. intros Ht H H'.
  destruct (p (op cmd)) as [|[v|i] rest]; [done| |].
  - apply bind_ok in H as [ms [_ H]]. apply bind_ok in H' as [ms' [_ H']].
    inversion H; inversion H'; by subst.
  - apply bind_ok in H as [vals [Hv H]]. apply bind_ok in H' as [vals' [Hv' H']].
    rewrite Hv in Hv'. inversion Hv'; subst vals'.
    destruct (tb =? 0); [done|].
    apply bind_ok in H as [v [Hx H]]. apply bind_ok in H' as [v' [Hx' H']].
    rewrite Ht, Hx' in Hx. inversion Hx; subst v'.
    apply bind_ok in H as [ms [_ H]]. apply bind_ok in H' as [ms' [_ H']].
    inversion H; inversion H'; by subst.
Qed.

(** X12. In the circuit a first call of [unroll] leaves, the operation at
    place [k] of a time step depends on the step only through its time bin:
    a rolled command whose first argument is a number is emitted with its
    own operation, arguments unchanged, at every step, and the operations
    of step [t + timebins] are those of step [t] (the parameter sequences
    are repeated, copy after copy). *)
Theorem unroll_operations_repeat (self u : TDMProgram) (rc : list command) :
  unrolled_circuit self = None -> rolled_circuit self = Some rc ->
  unroll self = Ok u ->
  (forall t k cmd v rest c,
      t < Z.to_nat (total_timebins self) -> rc !! k = Some cmd ->
      p (op cmd) = Num v :: rest ->
      circuit u !! (t * length rc + k) = Some c -> op c = op cmd) /\
  (forall t k c c',
      t + timebins self < Z.to_nat (total_timebins self) -> k < length rc ->
      circuit u !! (t * length rc + k) = Some c ->
      circuit u !! ((t + timebins self) * length rc + k) = Some c' ->
      op c' = op c).
Proof.
  intros Hnone Hrc Hu.
  destruct (unroll_fresh _ _ _ Hnone Hrc Hu) as (ms & r & _ & Hr & Hcirc & _).
  rewrite Hcirc. destruct (emit_steps_order _ _ _ _ _ _ _ _ _ Hr) as [_ Hall].
  split.
  - intros t k cmd v rest c Ht Hk Hp Hc.
    destruct (Hall t k cmd Ht Hk) as [c0 [Hc0 He]]. rewrite Hc in Hc0.
    inversion Hc0; subst c0. by eapply emitted_constant.
  - intros t k c c' Ht Hk Hc Hc'.
    destruct (lookup_lt_is_Some_2 rc k Hk) as [cmd Hcmd].
    destruct (Hall t k cmd) as [c0 [Hc0 He]]; [lia|done|].
    destruct (Hall (t + timebins self) k cmd) as [c1 [Hc1 He1]]; [lia|done|].
    rewrite Hc in Hc0. rewrite Hc' in Hc1. inversion Hc0; inversion Hc1; subst.
    eapply emitted_same_bin; [|exact He|exact He1]. simpl.
    destruct (timebins self) as [|tb] eqn:Etb; [by rewrite Nat.add_0_r|].
    rewrite <- (Nat.Div0.mod_add t 1 (S tb)). f_equal. lia.
Qed.

Lemma unroll_operations_repeat_witness :
  exists c c',
    circuit (Examples.state_of (unroll Examples.doc_state)) !! (1 * 3 + 1) = Some c /\
    circuit (Examples.state_of (unroll Examples.doc_state)) !! ((1 + 2) * 3 + 1) = Some c' /\
    op c' = op c.
Proof.
  eexists. eexists. split; [vm_compute; reflexivity|]. split; [vm_compute; reflexivity|].
  refine (proj2 (unroll_operations_repeat Examples.doc_state
                   (Examples.state_of (unroll Examples.doc_state)) Examples.doc_body
                   _ _ _) 1 1 _ _ _ _ _ _); vm_compute; first [reflexivity | lia].
Defined.

(* --------------------------------------------------------------------- *)
(* [reshape_samples] uses up the raw outcomes                              *)
(* --------------------------------------------------------------------- *)

Section Consume.
Context {V : Type}.
Implicit Types (m : gmap nat (list V)).

Lemma num_values_insert_fresh m k (l : list V) :
  m !! k = None -> num_values (<[k := l]> m) = length l + num_values m.
Proof.
  intros Hk. unfold num_values. rewrite map_fold_insert_L; [done| |done].
  intros. lia.
Qed.

Lemma num_values_insert m k (l : list V) :
  num_values (<[k := l]> m) + length (default [] (m !! k)) = num_values m + length l.
Proof.
  destruct (m !! k) as [l0|] eqn:Hk; simpl.
  - rewrite <- (insert_delete_eq m k l).
    rewrite <- (insert_delete_id m k l0 Hk) at 2.
    rewrite !num_values_insert_fresh by apply lookup_delete_eq. lia.
  - rewrite num_values_insert_fresh by done. lia.
Qed.

Lemma num_values_zero m k (l : list V) :
  num_values m = 0 -> m !! k = Some l -> l = [].
Proof.
  intros H0 Hk. pose proof (num_values_insert m k []) as H.
  rewrite Hk, H0 in H. simpl in H. destruct l; [done | simpl in H; lia].
Qed.

Lemma reshape_loop_counts measured Ns order : forall i (all_samples new_samples : gmap nat (list V)) new' all',
  reshape_loop measured Ns order i all_samples new_samples = Ok (new', all') ->
  num_values all_samples = length order + num_values all' /\
  num_values new' = num_values new_samples + length order /\
  dom all' = dom all_samples.
Proof.
  induction order as [|m0 order IH]; intros i all_samples new_samples new' all' H;
    simpl in H.
  - inversion H; subst. simpl. split; [done|]. split; [lia | done].
  - destruct (length Ns =? 0); [done|].
    apply bind_ok in H as [idx [_ H]].
    destruct (all_samples !! m0) as [[|x xs]|] eqn:Hm0; [done| |done].
    apply IH in H as (Hall & Hnew & Hdom).
    pose proof (num_values_insert all_samples m0 xs) as Hpop. rewrite Hm0 in Hpop.
    simpl in Hpop.
    split; [simpl; lia|]. split.
    + rewrite Hnew. clear Hnew. destruct (new_samples !! idx) as [l0|] eqn:Hidx.
      * rewrite Hidx. simpl.
        pose proof (num_values_insert new_samples idx (l0 ++ [x])) as Hput.
        rewrite Hidx, length_app in Hput. simpl in Hput. lia.
      * rewrite lookup_insert_eq, insert_insert_eq. simpl.
        rewrite num_values_insert_fresh by done. simpl. lia.
    + rewrite Hdom, dom_insert_L.
      apply subseteq_union_1_L, singleton_subseteq_l, elem_of_dom. eauto.
Qed.

(** X13. A call of [reshape_samples] that returns has used up its
    argument: every list of raw outcomes is left empty (the registers are
    still keys), and the reshaped lists hold exactly as many outcomes as
    were recorded. *)
Theorem reshape_samples_consumes (all_samples new_samples rest : gmap nat (list V))
    (measured Ns : list nat) :
  reshape_samples all_samples measured Ns = Ok (new_samples, rest) ->
  (forall (k : nat) l, rest !! k = Some l -> l = []) /\
  dom rest = dom all_samples /\
  num_values new_samples = num_values all_samples.
Proof.
  unfold reshape_samples. intros H. apply bind_ok in H as [order [Horder H]].
  apply get_mode_order_length in Horder.
  apply reshape_loop_counts in H as (Hall & Hnew & Hdom).
  assert (num_values rest = 0) as Hrest by lia.
  split; [|split; [done|]].
  - intros k l. by apply num_values_zero.
  - rewrite Hnew.
    assert (num_values (∅ : gmap nat (list V)) = 0) as -> by apply map_fold_empty.
    lia.
Qed.

End Consume.

Lemma reshape_samples_consumes_witness :
  match reshape_samples Examples.raw_samples [0] [2] with
  | Ok (new_samples, rest) =>
      (forall (k : nat) l, rest !! k = Some l -> l = []) /\
      dom rest = dom Examples.raw_samples /\
      num_values new_samples = num_values Examples.raw_samples
  | Err _ => False
  end.
Proof.
  destruct (reshape_samples Examples.raw_samples [0] [2]) as [[new_samples rest]|e] eqn:E.
  - exact (reshape_samples_consumes _ _ _ _ _ E).
  - vm_compute in E. discriminate.
Defined.

(* --------------------------------------------------------------------- *)
(* The default shift, band by band                                         *)
(* --------------------------------------------------------------------- *)

Lemma band_slices_cons n Ns :
  band_slices (n :: Ns) = (0, n) :: map (fun s => (n + s.1, n + s.2)) (band_slices Ns).
Proof.
  unfold band_slices. simpl. f_equal.
  rewrite <- seq_shift, !map_map. apply map_ext. intros j. simpl. f_equal. lia.
Qed.

Section Slices.
Context {A : Type}.
Implicit Types c q : list A.

Lemma get_slice_app c q a b :
  get_slice (c ++ q) (length c + a) (length c + b) = get_slice q a b.
Proof.
  unfold get_slice. rewrite drop_app_add. f_equal. lia.
Qed.

Lemma set_slice_app c q a b new :
  set_slice (c ++ q) (length c + a) (length c + b) new = c ++ set_slice q a b new.
Proof.
  unfold set_slice. by rewrite take_app_add, drop_app_add, <- app_assoc.
Qed.

Lemma reshape_join_lengths (chunks : list (list A)) :
  reshape (map length chunks) (mjoin chunks) = chunks.
Proof.
  induction chunks as [|c chunks IH]; simpl; [done|].
  by rewrite take_app_length, drop_app_length, IH.
Qed.

Lemma reshape_lengths (Ns : list nat) : forall q,
  length q = sum_list Ns -> map length (reshape Ns q) = Ns.
Proof.
  induction Ns as [|n Ns IH]; intros q Hq; simpl in *; [done|].
  rewrite length_take, IH by (rewrite length_drop; lia). f_equal. lia.
Qed.

(** Where a chunk lies in the joined list. *)
Lemma join_chunk_lookup (chunks : list (list A)) : forall b c s,
  chunks !! b = Some c -> s < length c ->
  mjoin chunks !! (sum_list (take b (map length chunks)) + s) = c !! s.
Proof.
  induction chunks as [|c0 chunks IH]; intros b c s Hb Hs; [done|].
  destruct b as [|b]; simpl in *.
  - inversion Hb; subst. by rewrite lookup_app_l.
  - rewrite lookup_app_r by lia.
    replace (length c0 + sum_list (take b (map length chunks)) + s - length c0)
      with (sum_list (take b (map length chunks)) + s) by lia.
    by apply IH.
Qed.

End Slices.

Lemma shift_default_app (c q : list nat) sl :
  shift_default (map (fun s => (length c + s.1, length c + s.2)) sl) (c ++ q) =
  c ++ shift_default sl q.
Proof.
  unfold shift_default. revert q.
  induction sl as [|s sl IH]; intros q; simpl; [done|].
  by rewrite get_slice_app, set_slice_app, IH.
Qed.

(** The default shift rotates every band's chunk of the register list by
    one. *)
Lemma shift_default_chunks Ns : forall q : list nat,
  length q = sum_list Ns ->
  shift_default (band_slices Ns) q =
  mjoin (map (fun c => shift_by c 1) (reshape Ns q)).
Proof.
  induction Ns as [|n Ns IH]; intros q Hq; simpl in Hq.
  - by destruct q.
  - rewrite band_slices_cons. simpl.
    unfold shift_default. simpl. fold (shift_default
      (map (fun s => (n + s.1, n + s.2)) (band_slices Ns))
      (set_slice q 0 n (shift_by (get_slice q 0 n) 1))).
    unfold set_slice, get_slice. simpl. rewrite Nat.sub_0_r, drop_0.
    assert (length (shift_by (take n q) 1) = n) as Hlen
      by (rewrite shift_by_length, length_take; lia).
    assert (forall n' (c : list nat) q' sl, length c = n' ->
              shift_default (map (fun s => (n' + s.1, n' + s.2)) sl) (c ++ q') =
              c ++ shift_default sl q') as Happ
      by (intros n' c q' sl <-; apply shift_default_app).
    rewrite (Happ n _ _ _ Hlen).
    f_equal. apply IH. rewrite length_drop. lia.
Qed.

Lemma iter_shift_default_perm Ns t (q : list nat) :
  Nat.iter t (shift_default (band_slices Ns)) q ≡ₚ q.
Proof.
  induction t as [|t IH]; simpl; [done|].
  rewrite shift_default_perm by apply band_slices_ordered. done.
Qed.

Lemma iter_shift_default_chunks Ns t : forall q : list nat,
  length q = sum_list Ns ->
  Nat.iter t (shift_default (band_slices Ns)) q =
  mjoin (map (Nat.iter t (fun c => shift_by c 1)) (reshape Ns q)).
Proof.
  induction t as [|t IH]; intros q Hq.
  - simpl. rewrite map_id. symmetry. by apply join_reshape.
  - simpl. rewrite IH by done.
    rewrite shift_default_chunks.
    + f_equal.
      assert (map length (map (Nat.iter t (fun c => shift_by c 1)) (reshape Ns q)) = Ns)
        as Hlens.
      { rewrite map_map. erewrite map_ext; [by apply reshape_lengths|].
        intros c. apply iter_shift_one_length. }
      rewrite <- Hlens at 1. rewrite reshape_join_lengths. by rewrite map_map.
    + rewrite <- IH by done. by rewrite iter_shift_default_perm.
Qed.

Lemma reshape_seq Ns : forall a b n,
  Ns !! b = Some n ->
  reshape Ns (seq a (sum_list Ns)) !! b = Some (seq (a + sum_list (take b Ns)) n).
Proof.
  induction Ns as [|n0 Ns IH]; intros a b n Hb; [done|].
  simpl. rewrite seq_app.
  rewrite take_app_length' by (by rewrite length_seq).
  rewrite drop_app_length' by (by rewrite length_seq).
  destruct b as [|b]; simpl in *.
  - inversion Hb; subst. by rewrite Nat.add_0_r.
  - rewrite (IH _ _ _ Hb). f_equal. f_equal. lia.
Qed.

Lemma registers_at_default_lookup (self : TDMProgram) (t b n s : nat) :
  shift self = ShiftStr "default" ->
  concurr_modes self = sum_list (N self) ->
  N self !! b = Some n -> s < n ->
  registers_at self t !! (sum_list (take b (N self)) + s)
  = Some (sum_list (take b (N self)) + (s + t) mod n).
Proof.
  intros Hshift Hpool Hb Hs. unfold registers_at, register. rewrite Hshift, Hpool.
  change (shift_registers (ShiftStr "default") (band_slices (N self)))
    with (shift_default (band_slices (N self))).
  rewrite iter_shift_default_chunks by apply length_seq.
  set (chunks := map (Nat.iter t (fun c => shift_by c 1))
                     (reshape (N self) (seq 0 (sum_list (N self))))).
  assert (map length chunks = N self) as Hlens.
  { unfold chunks. rewrite map_map. erewrite map_ext.
    - apply reshape_lengths, length_seq.
    - intros c. apply iter_shift_one_length. }
  assert (chunks !! b = Some (Nat.iter t (fun c => shift_by c 1)
                                       (seq (sum_list (take b (N self))) n))) as Hchunk.
  { unfold chunks. rewrite list_lookup_fmap. by rewrite (reshape_seq _ 0 b n Hb). }
  rewrite <- Hlens at 1.
  rewrite (join_chunk_lookup chunks b _ s Hchunk)
    by (by rewrite iter_shift_one_length, length_seq).
  rewrite iter_shift_one_lookup by (by rewrite length_seq).
  rewrite length_seq. apply lookup_seq_lt. apply Nat.mod_upper_bound. lia.
Qed.

(** X14. The default shift works as a delay line in every band: with the
    bands of [N] laid end to end over the register pool, the slot [s] of
    band [b] holds, at the start of time step [t], the register of that
    band [(s + t) mod N[b]] places after the band's first register.  So a
    register never leaves its band, and a band of [n] registers is back in
    its order after [n] time steps. *)
Theorem default_shift_delay_line (self : TDMProgram) (t b n s : nat) :
  shift self = ShiftStr "default" ->
  concurr_modes self = sum_list (N self) ->
  N self !! b = Some n -> s < n ->
  exists r,
    registers_at self t !! (sum_list (take b (N self)) + s) = Some r /\
    r = sum_list (take b (N self)) + (s + t) mod n /\
    sum_list (take b (N self)) <= r < sum_list (take b (N self)) + n /\
    registers_at self (t + n) !! (sum_list (take b (N self)) + s) = Some r.
Proof.
  intros Hshift Hpool Hb Hs.
  exists (sum_list (take b (N self)) + (s + t) mod n).
  split; [by apply registers_at_default_lookup|]. split; [done|]. split.
  - pose proof (Nat.mod_upper_bound (s + t) n). lia.
  - rewrite (registers_at_default_lookup self (t + n) b n s) by done.
    f_equal. f_equal. rewrite Nat.add_assoc.
    rewrite <- (Nat.Div0.mod_add (s + t) 1 n). f_equal. lia.
Qed.

Lemma default_shift_delay_line_witness :
  exists r,
    registers_at Examples.doc_state 3 !! (sum_list (take 0 (N Examples.doc_state)) + 0)
    = Some r /\
    r = sum_list (take 0 (N Examples.doc_state)) + (0 + 3) mod 2 /\
    sum_list (take 0 (N Examples.doc_state)) <= r
    < sum_list (take 0 (N Examples.doc_state)) + 2 /\
    registers_at Examples.doc_state (3 + 2) !! (sum_list (take 0 (N Examples.doc_state)) + 0)
    = Some r.
Proof.
  apply (default_shift_delay_line Examples.doc_state 3 0 2 0); [reflexivity..|lia].
Defined.

(* --------------------------------------------------------------------- *)
(* The schedule of [_get_mode_order] in closed form                        *)
(* --------------------------------------------------------------------- *)

Lemma repeat_list_lookup {A} (l : list A) k : forall j,
  j < k * length l -> repeat_list l k !! j = l !! (j mod length l).
Proof.
  unfold repeat_list. induction k as [|k IH]; intros j Hj; [simpl in Hj; lia|].
  simpl. destruct (decide (j < length l)) as [Hlt|Hge].
  - rewrite lookup_app_l by done. by rewrite Nat.mod_small.
  - rewrite lookup_app_r by lia. rewrite IH by (simpl in Hj; lia).
    f_equal. rewrite <- (Nat.Div0.mod_add (j - length l) 1 (length l)).
    f_equal. lia.
Qed.

Lemma fold_min_length {A} (ls : list (list A)) M : forall acc,
  M <= acc -> Forall (fun l => M <= length l) ls ->
  acc = M \/ Exists (fun l => length l = M) ls ->
  fold_left (fun n l' => Nat.min n (length l')) ls acc = M.
Proof.
  induction ls as [|l ls IH]; intros acc Hacc Hall Hex; simpl.
  - destruct Hex as [?|Hex]; [done | by apply Exists_nil in Hex].
  - apply Forall_cons in Hall as [Hl Hls]. apply IH; [lia | done |].
    destruct Hex as [->|Hex]; [left; lia|].
    apply Exists_cons in Hex as [Hex|Hex]; [left; lia | by right].
Qed.

Lemma min_length_eq {A} (ls : list (list A)) M :
  Forall (fun l => M <= length l) ls -> Exists (fun l => length l = M) ls ->
  min_length ls = M.
Proof.
  intros Hall Hex. destruct ls as [|l ls]; [by apply Exists_nil in Hex|].
  simpl. apply Forall_cons in Hall as [Hl Hls].
  apply fold_min_length; [done | done |].
  apply Exists_cons in Hex as [Hex|Hex]; [by left | by right].
Qed.

(** The rows of [all_modes]: band [b]'s registers, over and over, at least
    [max(N)] of them, and exactly [max(N)] for a band of that size. *)
Lemma all_modes_rows Ns am :
  Forall (fun k => 0 < k) Ns -> all_modes Ns = Ok am ->
  length am = length Ns /\
  forall b n, Ns !! b = Some n ->
    exists row, am !! b = Some row /\
                max_list Ns <= length row /\
                (n = max_list Ns -> length row = max_list Ns) /\
                forall j, j < length row ->
                          row !! j = Some (sum_list (take b Ns) + j mod n).
Proof.
  intros Hpos Ham. unfold all_modes in Ham. apply mapM_ok in Ham as [Hlen Hall].
  rewrite length_seq in Hlen. split; [done|].
  intros b n Hb. destruct (Hall b b) as [row [Hrow Hf]].
  { apply lookup_seq. split; [done | by eapply lookup_lt_Some]. }
  cbv zeta in Hf. rewrite length_seq, (sum_take_succ _ _ _ Hb) in Hf.
  apply bind_ok in Hf as [k [Hk Hf]]. inversion Hf; subst row. clear Hf.
  rewrite Forall_lookup in Hpos. specialize (Hpos _ _ Hb).
  exists (repeat_list (seq (sum_list (take b Ns)) n) k). split; [done|].
  rewrite repeat_list_length, length_seq.
  pose proof (ceil_div_covers _ _ _ Hk) as Hcov.
  split; [done|]. split.
  - intros ->. unfold ceil_div in Hk.
    destruct (max_list Ns =? 0) eqn:E; [done|]. inversion Hk as [Hk'].
    assert ((max_list Ns + max_list Ns - 1) / max_list Ns = 1) as ->; [|lia].
    symmetry. apply (Nat.div_unique _ _ 1 (max_list Ns - 1)); lia.
  - intros j Hj. rewrite repeat_list_lookup by (by rewrite length_seq).
    rewrite length_seq. apply lookup_seq_lt, Nat.mod_upper_bound. lia.
Qed.

(** One period of the schedule: position [j * len(N) + b] visits band [b]
    for the [j]-th time. *)
Lemma mode_order_period Ns am :
  Ns <> [] -> Forall (fun k => 0 < k) Ns -> all_modes Ns = Ok am ->
  length (mjoin (zip_star am)) = max_list Ns * length Ns /\
  forall j b n, j < max_list Ns -> Ns !! b = Some n ->
    mjoin (zip_star am) !! (j * length Ns + b) = Some (sum_list (take b Ns) + j mod n).
Proof.
  intros Hne Hpos Ham. destruct (all_modes_rows _ _ Hpos Ham) as [Hlen Hrows].
  assert (min_length am = max_list Ns) as Hmin.
  { apply min_length_eq.
    - apply Forall_lookup. intros b row Hrow.
      assert (b < length Ns) as Hb by (rewrite <- Hlen; by eapply lookup_lt_Some).
      destruct (lookup_lt_is_Some_2 Ns b Hb) as [n Hn].
      destruct (Hrows b n Hn) as (row' & Hrow' & Hge & _). rewrite Hrow in Hrow'.
      by inversion Hrow'; subst.
    - apply Exists_exists. pose proof (max_list_elem_of Ns Hne) as Hmax.
      apply list_elem_of_lookup in Hmax as [b Hb].
      destruct (Hrows b _ Hb) as (row & Hrow & _ & Heq & _).
      exists row. split; [by eapply list_elem_of_lookup_2 | by apply Heq]. }
  assert (Forall (fun l : list nat => length l = length Ns) (zip_star am)) as Hsame.
  { unfold zip_star. apply Forall_forall. intros l Hl.
    apply list_elem_of_fmap in Hl as [j [-> _]]. by rewrite length_map. }
  split.
  - rewrite length_join, (sum_list_fmap_same (length Ns)) by done.
    unfold zip_star. by rewrite length_map, length_seq, Hmin.
  - intros j b n Hj Hb.
    apply (join_lookup_Some_same_length' (length Ns)); [done | by eapply lookup_lt_Some |].
    destruct (Hrows b n Hb) as (row & Hrow & Hge & _ & Hval).
    exists (map (fun l => l !!! j) am). split.
    + unfold zip_star. rewrite list_lookup_fmap, Hmin, lookup_seq_lt by done. done.
    + rewrite list_lookup_fmap, Hrow. simpl. f_equal.
      apply list_lookup_total_correct, Hval. lia.
Qed.

Lemma schedule_lookup num Ns order t b n :
  Forall (fun k => 0 < k) Ns -> _get_mode_order num Ns = Ok order ->
  Ns !! b = Some n -> t * length Ns + b < num ->
  order !! (t * length Ns + b) =
  Some (sum_list (take b Ns) + (t mod max_list Ns) mod n).
Proof.
  intros Hpos Horder Hb Hi.
  assert (Ns <> []) as Hne by (intros ->; done).
  assert (b < length Ns) as HbB by (by eapply lookup_lt_Some).
  assert (0 < max_list Ns) as HM.
  { pose proof (max_list_elem_of_le n Ns (list_elem_of_lookup_2 _ _ _ Hb)).
    rewrite Forall_lookup in Hpos. specialize (Hpos _ _ Hb). lia. }
  unfold _get_mode_order in Horder.
  apply bind_ok in Horder as [am [Ham Horder]].
  apply bind_ok in Horder as [k [Hk Horder]]. inversion Horder; subst order. clear Horder.
  destruct (mode_order_period Ns am Hne Hpos Ham) as [Hlen Hval].
  apply ceil_div_covers in Hk. rewrite Hlen in Hk.
  rewrite lookup_take_lt by done.
  rewrite repeat_list_lookup by (rewrite Hlen; lia). rewrite Hlen.
  assert ((t * length Ns + b) mod (max_list Ns * length Ns)
          = (t mod max_list Ns) * length Ns + b) as ->.
  { pose proof (Nat.div_mod_eq t (max_list Ns)) as Ht.
    pose proof (Nat.mod_upper_bound t (max_list Ns)) as Hr.
    symmetry. apply (Nat.mod_unique _ _ (t / max_list Ns)); [nia|].
    rewrite Ht at 1. lia. }
  apply Hval; [apply Nat.mod_upper_bound; lia | done].
Qed.

(** X15. The schedule of [_get_mode_order], for bands of at least one mode
    each: it has [num_of_values] positions; position [t * len(N) + b] visits
    band [b], at the register [(t mod max(N)) mod N[b]] places after the
    band's first one; and the schedule repeats every
    [max(N) * len(N)] positions. *)
Theorem mode_order_formula (num : nat) (Ns order : list nat) :
  Forall (fun k => 0 < k) Ns -> _get_mode_order num Ns = Ok order ->
  length order = num /\
  (forall t b n, Ns !! b = Some n -> t * length Ns + b < num ->
     order !! (t * length Ns + b) =
     Some (sum_list (take b Ns) + (t mod max_list Ns) mod n)) /\
  (forall i, i + max_list Ns * length Ns < num ->
     order !! (i + max_list Ns * length Ns) = order !! i).
Proof.
  intros Hpos Horder. split; [by apply get_mode_order_length in Horder|]. split.
  - intros t b n Hb Hi. by apply (schedule_lookup num).
  - intros i Hi.
    assert (Ns <> []) as Hne.
    { intros ->. by vm_compute in Horder. }
    assert (0 < length Ns) as HB by (destruct Ns; [done | simpl; lia]).
    pose proof (Nat.div_mod_eq i (length Ns)) as Hdm.
    pose proof (Nat.mod_upper_bound i (length Ns)) as Hr.
    destruct (lookup_lt_is_Some_2 Ns (i mod length Ns)) as [n Hn]; [lia|].
    assert (0 < max_list Ns) as HM.
    { pose proof (max_list_elem_of_le n Ns (list_elem_of_lookup_2 _ _ _ Hn)).
      rewrite Forall_lookup in Hpos. specialize (Hpos _ _ Hn). lia. }
    replace (i + max_list Ns * length Ns)
      with ((i / length Ns + max_list Ns) * length Ns + i mod length Ns) by lia.
    rewrite (schedule_lookup num Ns order _ _ n Hpos Horder Hn) by lia.
    replace i with ((i / length Ns) * length Ns + i mod length Ns) at 3 by lia.
    rewrite (schedule_lookup num Ns order _ _ n Hpos Horder Hn) by lia.
    f_equal. f_equal. f_equal.
    rewrite <- (Nat.Div0.mod_add (i / length Ns) 1 (max_list Ns)). f_equal. lia.
Qed.

Lemma mode_order_formula_witness :
  length [0; 1; 0; 2; 0; 1; 0] = 7 /\
  (forall t b n, [1; 2] !! b = Some n -> t * length [1; 2] + b < 7 ->
     [0; 1; 0; 2; 0; 1; 0] !! (t * length [1; 2] + b) =
     Some (sum_list (take b [1; 2]) + (t mod max_list [1; 2]) mod n)) /\
  (forall i, i + max_list [1; 2] * length [1; 2] < 7 ->
     [0; 1; 0; 2; 0; 1; 0] !! (i + max_list [1; 2] * length [1; 2])
     = [0; 1; 0; 2; 0; 1; 0] !! i).
Proof.
  apply (mode_order_formula 7 [1; 2] [0; 1; 0; 2; 0; 1; 0]).
  - repeat constructor.
  - vm_compute. reflexivity.
Defined.

Lemma mod_mod_divide t M n : (n | M) -> (t mod M) mod n = t mod n.
Proof.
  intros [z ->]. destruct (decide (z * n = 0)) as [E|E].
  - rewrite E. simpl. done.
  - rewrite (Nat.div_mod_eq t (z * n)) at 2.
    replace (z * n * (t / (z * n)) + t mod (z * n))
      with (t mod (z * n) + (z * (t / (z * n))) * n) by lia.
    by rewrite Nat.Div0.mod_add.
Qed.

(** X16. The schedule against the unrolling, under the default shift: for
    a band whose size divides [max(N)], the schedule's position
    [t * len(N) + b] is the register that the first slot of band [b] holds at
    time step [t], the register a measurement on that slot is emitted on;
    for a band whose size does not divide [max(N)], the two differ at time
    step [max(N)]. *)
Theorem mode_order_against_unroll (self : TDMProgram) (num : nat) (order : list nat)
    (b n : nat) :
  shift self = ShiftStr "default" ->
  concurr_modes self = sum_list (N self) ->
  Forall (fun k => 0 < k) (N self) ->
  _get_mode_order num (N self) = Ok order ->
  N self !! b = Some n ->
  ((n | max_list (N self)) ->
   forall t, t * length (N self) + b < num ->
     order !! (t * length (N self) + b)
     = registers_at self t !! sum_list (take b (N self))) /\
  (~ (n | max_list (N self)) ->
   max_list (N self) * length (N self) + b < num ->
   order !! (max_list (N self) * length (N self) + b)
   <> registers_at self (max_list (N self)) !! sum_list (take b (N self))).
Proof.
  intros Hshift Hpool Hpos Horder Hb.
  assert (0 < n) as Hn by (rewrite Forall_lookup in Hpos; by apply (Hpos b)).
  assert (forall t, registers_at self t !! sum_list (take b (N self))
                    = Some (sum_list (take b (N self)) + t mod n)) as Hreg.
  { intros t. rewrite <- (Nat.add_0_r (sum_list (take b (N self)))) at 1.
    by rewrite (registers_at_default_lookup self t b n 0). }
  split.
  - intros Hdiv t Ht. rewrite Hreg.
    rewrite (schedule_lookup num _ order t b n) by done.
    by rewrite mod_mod_divide.
  - intros Hndiv Ht. rewrite Hreg.
    rewrite (schedule_lookup num _ order _ b n) by done.
    rewrite Nat.Div0.mod_same, Nat.Div0.mod_0_l.
    intros E. inversion E as [E']. apply Hndiv.
    apply Nat.Lcm0.mod_divide. lia.
Qed.

Lemma mode_order_against_unroll_witness :
  [0; 1; 0; 1; 0; 1] !! (2 * length (N Examples.doc_state) + 0)
  = registers_at Examples.doc_state 2 !! sum_list (take 0 (N Examples.doc_state)).
Proof.
  apply (proj1 (mode_order_against_unroll Examples.doc_state 6 [0; 1; 0; 1; 0; 1] 0 2
                  eq_refl eq_refl ltac:(repeat constructor) eq_refl eq_refl)).
  - exists 1. reflexivity.
  - vm_compute. lia.
Defined.

(* --------------------------------------------------------------------- *)
(* When a block builds a program                                           *)
(* --------------------------------------------------------------------- *)

Lemma validate_measurements_ok circ Ns sp :
  validate_measurements circ Ns = Ok sp <->
  sp = count_measured circ /\ sp <> 0 /\ sp = length Ns /\ sp <= 256.
Proof.
  unfold validate_measurements, int_is.
  destruct (count_measured circ =? 0) eqn:E0.
  - apply Nat.eqb_eq in E0. split; [done|]. intros (-> & H & _). done.
  - apply Nat.eqb_neq in E0.
    destruct (count_measured circ =? length Ns) eqn:E1; simpl.
    + apply Nat.eqb_eq in E1. destruct (count_measured circ <=? 256) eqn:E2; simpl.
      * apply Nat.leb_le in E2. split; [intros H; inversion H; subst; auto|].
        by intros (-> & _).
      * apply Nat.leb_gt in E2. split; [done|]. intros (-> & _ & _ & H). lia.
    + apply Nat.eqb_neq in E1. split; [done|]. intros (-> & _ & H & _). done.
Qed.

Lemma input_check_ok args c :
  input_check args c = Ok tt <->
  args <> [] /\ (forall a b, a ∈ args -> b ∈ args -> length a = length b) /\
  is_positive_int c = true.
Proof.
  unfold input_check.
  destruct (size _ =? 1) eqn:Hsz; simpl.
  - apply Nat.eqb_eq, one_length_iff in Hsz as [Hne Hall].
    assert (args <> []) as Hargs by (by destruct args).
    assert (forall a b, a ∈ args -> b ∈ args -> length a = length b) as Heq
      by (intros a b Ha Hb; apply Hall; by apply list_elem_of_fmap_2).
    destruct (is_positive_int c); simpl; [done|]. split; [done | by intros (_ & _ & ?)].
  - apply Nat.eqb_neq in Hsz. split; [done|]. intros (Hne & Hall & _).
    exfalso. apply Hsz, one_length_iff. split; [by destruct args|].
    intros a b Ha Hb.
    apply list_elem_of_fmap in Ha as [x [-> Hx]].
    apply list_elem_of_fmap in Hb as [y [-> Hy]]. by apply Hall.
Qed.

(** X17. A block [with prog.context( *args, copies, shift)] that appends
    the commands [body] and raises nothing leaves a program exactly when
    there is a sequence and all sequences have one length, [copies] is a
    positive integer, and the measured registers of [body] are at least one,
    as many as there are bands, and at most 256.  The program then has the
    common length as its time bins and [timebins * copies] as its total, the
    count as its spatial modes, [body] as its active and its rolled circuit,
    no unrolled circuit, and [sum(N)] concurrent modes. *)
Theorem with_block_builds (Ns : list nat) (args : list (list pynum)) (c : pyobject)
    (sh : shift_policy) (body : list command) :
  ((exists s, build Ns args c sh body = Ok s) <->
   args <> [] /\ (forall a b, a ∈ args -> b ∈ args -> length a = length b) /\
   is_positive_int c = true /\
   count_measured body <> 0 /\ count_measured body = length Ns /\
   count_measured body <= 256) /\
  (forall s, build Ns args c sh body = Ok s ->
     (forall a, a ∈ args -> length a = timebins s) /\
     c = ObjInt (copies s) /\
     total_timebins s = (Z.of_nat (timebins s) * copies s)%Z /\
     spatial_modes s = count_measured body /\
     circuit s = body /\ rolled_circuit s = Some body /\ unrolled_circuit s = None /\
     N s = Ns /\ concurr_modes s = sum_list Ns /\
     tdm_params s = args /\ shift s = sh).
Proof.
  split.
  - split.
    + intros [s Hs]. unfold build, context in Hs.
      apply bind_ok in Hs as [s0 [Hctx Hs]].
      apply bind_ok in Hctx as [[] [Hin Hctx]].
      apply input_check_ok in Hin as (Hne & Hall & Hc).
      destruct c as [z| | |]; try done. inversion Hctx; subst s0. clear Hctx.
      unfold __exit__ in Hs. simpl in Hs.
      apply bind_ok in Hs as [sp [Hsp _]].
      apply validate_measurements_ok in Hsp as (-> & H0 & HN & H256). done.
    + intros (Hne & Hall & Hc & H0 & HN & H256).
      unfold build, context.
      rewrite (proj2 (input_check_ok args c)) by done. simpl.
      destruct c as [z| | |]; try done. simpl.
      unfold __exit__. simpl.
      rewrite (proj2 (validate_measurements_ok body Ns (count_measured body))) by done.
      simpl. destruct args as [|first args]; [done|]. simpl. eauto.
  - intros s Hs. apply build_state in Hs
      as (HN & Hpool & Hcirc & Hrolled & Hun & Htp & Hsh & Hc & _ & _ & Hlen & Htot & Hval).
    apply validate_measurements_ok in Hval as (Hsp & _).
    repeat split; done.
Qed.

Lemma with_block_builds_witness :
  (forall a, a ∈ [[PyInt 1; PyInt 2]; [PyInt 3; PyInt 4]] ->
             length a = timebins Examples.doc_state) /\
  ObjInt 3 = ObjInt (copies Examples.doc_state) /\
  total_timebins Examples.doc_state
  = (Z.of_nat (timebins Examples.doc_state) * copies Examples.doc_state)%Z /\
  spatial_modes Examples.doc_state = count_measured Examples.doc_body /\
  circuit Examples.doc_state = Examples.doc_body /\
  rolled_circuit Examples.doc_state = Some Examples.doc_body /\
  unrolled_circuit Examples.doc_state = None /\
  N Examples.doc_state = [2] /\ concurr_modes Examples.doc_state = sum_list [2] /\
  tdm_params Examples.doc_state = [[PyInt 1; PyInt 2]; [PyInt 3; PyInt 4]] /\
  shift Examples.doc_state = ShiftStr "default".
Proof.
  apply (proj2 (with_block_builds [2] [[PyInt 1; PyInt 2]; [PyInt 3; PyInt 4]] (ObjInt 3)
                  (ShiftStr "default") Examples.doc_body) Examples.doc_state).
  vm_compute. reflexivity.
Defined.

(* --------------------------------------------------------------------- *)
(* Unrolling over the store of list objects                                *)
(* --------------------------------------------------------------------- *)

(** An append through [self.circuit] is the append by value, as long as no
    other attribute holds the list appended to. *)
Lemma append_contents o modes h self :
  Heap.circuit self < length h ->
  Heap.rolled_circuit self <> Some (Heap.circuit self) ->
  Heap.unrolled_circuit self <> Some (Heap.circuit self) ->
  Heap.contents (Heap.append o modes h self) self
  = append o modes (Heap.contents h self).
Proof.
  intros Hc Hr Hu. unfold Heap.contents, Heap.append, append, set_circuit. simpl.
  rewrite list_lookup_total_insert_eq by done. f_equal.
  - destruct (Heap.rolled_circuit self) as [r|]; [|done]. simpl.
    rewrite list_lookup_total_insert_ne; [done|]. intros E. by rewrite E in *.
  - destruct (Heap.unrolled_circuit self) as [r|]; [|done]. simpl.
    rewrite list_lookup_total_insert_ne; [done|]. intros E. by rewrite E in *.
Qed.

(** The append changes one list and makes none. *)
Lemma append_frame o modes h self :
  length (Heap.append o modes h self) = length h /\
  forall r, r <> Heap.circuit self -> Heap.append o modes h self !!! r = h !!! r.
Proof.
  unfold Heap.append. split; [apply length_insert|].
  intros r Hr. by rewrite list_lookup_total_insert_ne.
Qed.

Lemma apply_op_contents h self cmd q t :
  Heap.circuit self < length h ->
  Heap.rolled_circuit self <> Some (Heap.circuit self) ->
  Heap.unrolled_circuit self <> Some (Heap.circuit self) ->
  match Heap.apply_op h self cmd q t with
  | Ok h' =>
      apply_op (Heap.contents h self) cmd q t = Ok (Heap.contents h' self) /\
      length h' = length h /\
      forall r, r <> Heap.circuit self -> h' !!! r = h !!! r
  | Err e => apply_op (Heap.contents h self) cmd q t = Err e
  end.
Proof.
  intros Hc Hr Hu. unfold Heap.apply_op, apply_op.
  destruct (p (op cmd)) as [|[v|i] rest]; [done| |]; simpl.
  - destruct (get_modes cmd q) as [modes|e]; [|done]. simpl.
    rewrite append_contents by done. split; [done|]. apply append_frame.
  - destruct (getitem (Heap.tdm_params self) i) as [vals|e]; [|done]. simpl.
    destruct (Heap.timebins self =? 0); [done|].
    destruct (getitem vals (t mod Heap.timebins self)) as [v|e]; [|done]. simpl.
    destruct (get_modes cmd q) as [modes|e]; [|done]. simpl.
    rewrite append_contents by done. split; [done|]. apply append_frame.
Qed.

Lemma apply_ops_contents self cmds q t : forall h,
  Heap.circuit self < length h ->
  Heap.rolled_circuit self <> Some (Heap.circuit self) ->
  Heap.unrolled_circuit self <> Some (Heap.circuit self) ->
  match Heap.apply_ops h self cmds q t with
  | Ok h' =>
      apply_ops (Heap.contents h self) cmds q t = Ok (Heap.contents h' self) /\
      length h' = length h /\
      forall r, r <> Heap.circuit self -> h' !!! r = h !!! r
  | Err e => apply_ops (Heap.contents h self) cmds q t = Err e
  end.
Proof.
  induction cmds as [|cmd cmds IH]; intros h Hc Hr Hu; simpl; [done|].
  pose proof (apply_op_contents h self cmd q t Hc Hr Hu) as Hop.
  destruct (Heap.apply_op h self cmd q t) as [h1|e]; simpl; [|by rewrite Hop].
  destruct Hop as (Hop & Hlen & Hframe). rewrite Hop. simpl.
  assert (Heap.circuit self < length h1) as Hc1 by lia.
  specialize (IH h1 Hc1 Hr Hu).
  destruct (Heap.apply_ops h1 self cmds q t) as [h2|e]; [|done].
  destruct IH as (IH & Hlen2 & Hframe2). split; [done|]. split; [lia|].
  intros r Hne. rewrite Hframe2, Hframe; done.
Qed.

Lemma unroll_steps_contents rolled sm self n : forall h q t,
  Heap.circuit self < length h ->
  Heap.rolled_circuit self = Some rolled -> rolled <> Heap.circuit self ->
  Heap.unrolled_circuit self <> Some (Heap.circuit self) ->
  match Heap.unroll_steps rolled sm h self q t n with
  | Ok (h', q') =>
      unroll_steps (h !!! rolled) sm (Heap.contents h self) q t n
      = Ok (Heap.contents h' self, q') /\
      length h' = length h /\
      forall r, r <> Heap.circuit self -> h' !!! r = h !!! r
  | Err e => unroll_steps (h !!! rolled) sm (Heap.contents h self) q t n = Err e
  end.
Proof.
  induction n as [|n IH]; intros h q t Hc Hrolled Hne Hu; simpl; [done|].
  assert (Heap.rolled_circuit self <> Some (Heap.circuit self)) as Hr
    by (rewrite Hrolled; intros [= ->]; done).
  pose proof (apply_ops_contents self (h !!! rolled) q t h Hc Hr Hu) as Hops.
  destruct (Heap.apply_ops h self (h !!! rolled) q t) as [h1|e]; simpl; [|by rewrite Hops].
  destruct Hops as (Hops & Hlen & Hframe). rewrite Hops. simpl.
  assert (Heap.circuit self < length h1) as Hc1 by lia.
  specialize (IH h1 (shift_registers (Heap.shift self) sm q) (S t) Hc1 Hrolled Hne Hu).
  rewrite (Hframe rolled Hne) in IH.
  destruct (Heap.unroll_steps rolled sm h1 self _ (S t) n) as [[h2 q2]|e]; [|done].
  destruct IH as (IH & Hlen2 & Hframe2). split; [done|]. split; [lia|].
  intros r Hr'. rewrite Hframe2, Hframe; done.
Qed.

Lemma valid_inv h self :
  Heap.valid h self = true ->
  Heap.circuit self < length h /\
  (forall r, Heap.rolled_circuit self = Some r -> r < length h) /\
  (forall r, Heap.unrolled_circuit self = Some r -> r < length h).
Proof.
  unfold Heap.valid. intros H.
  apply andb_prop in H as [H Hu]. apply andb_prop in H as [Hc Hr].
  apply Nat.ltb_lt in Hc. split; [done|]. split; intros r E; rewrite E in *; simpl in *;
    by apply Nat.ltb_lt.
Qed.

(** [unroll] over the store does to the contents what [unroll] does by
    value.  It changes no list that existed before the call; with a cache
    it makes no list at all, and without one it makes two: the new active
    circuit and, with the same commands, the cache. *)
Lemma unroll_contents h self :
  Heap.valid h self = true ->
  match Heap.unroll h self with
  | Ok (h', u) =>
      unroll (Heap.contents h self) = Ok (Heap.contents h' u) /\
      Heap.valid h' u = true /\
      (forall r, r < length h -> h' !!! r = h !!! r) /\
      match Heap.unrolled_circuit self with
      | Some c => h' = h /\ u = Heap.set_circuit c self
      | None =>
          Heap.circuit u = length h /\
          Heap.unrolled_circuit u = Some (S (length h)) /\
          length h' = S (S (length h)) /\
          h' !!! S (length h) = h' !!! length h
      end
  | Err e => unroll (Heap.contents h self) = Err e
  end.
Proof.
  intros Hvalid. pose proof (valid_inv _ _ Hvalid) as (Hc & Hr & Hu).
  unfold Heap.unroll, unroll.
  destruct (Heap.unrolled_circuit self) as [c|] eqn:Hcache.
  - simpl. rewrite Hcache. simpl. split; [|split; [|done]].
    + unfold Heap.contents, set_circuit. simpl. by rewrite Hcache.
    + unfold Heap.valid. simpl. rewrite Hcache. simpl.
      rewrite (proj2 (Nat.ltb_lt _ _) (Hu c eq_refl)). simpl.
      destruct (Heap.rolled_circuit self) as [r|]; simpl; [|done].
      rewrite (proj2 (Nat.ltb_lt _ _) (Hr r eq_refl)). done.
  - simpl. rewrite Hcache. simpl.
    destruct (Heap.rolled_circuit self) as [rolled|] eqn:Hrolled; simpl; [|done].
    specialize (Hr rolled eq_refl).
    rewrite lookup_total_app_l by done.
    destruct (first_measured (h !!! rolled)) as [ms|e]; simpl; [|done].
    set (self1 := Heap.set_measured_modes (Heap.measured_modes self ++ ms)
                    (Heap.set_circuit (length h) self)).
    pose proof (unroll_steps_contents rolled (band_slices (Heap.N self)) self1
                  (Z.to_nat (Heap.total_timebins self)) (h ++ [[]])
                  (seq 0 (Heap.concurr_modes self)) 0) as Hsteps.
    simpl in Hsteps. rewrite length_app in Hsteps. simpl in Hsteps.
    rewrite lookup_total_app_l in Hsteps by done.
    specialize (Hsteps ltac:(lia) Hrolled ltac:(lia)).
    rewrite Hcache in Hsteps. specialize (Hsteps ltac:(done)).
    assert (Heap.contents (h ++ [[]]) self1
            = set_measured_modes (Heap.measured_modes self ++ ms)
                (set_circuit [] (Heap.contents h self))) as Hstart.
    { unfold Heap.contents, set_measured_modes, set_circuit, self1. simpl.
      rewrite Hrolled, Hcache. simpl.
      rewrite (list_lookup_total_middle h [] [] (length h)) by done.
      by rewrite lookup_total_app_l by done. }
    rewrite Hstart in Hsteps. unfold Heap.register, register. simpl.
    destruct (Heap.unroll_steps rolled _ (h ++ [[]]) self1 _ 0 _) as [[h1 q1]|e]; simpl;
      [|by rewrite Hsteps].
    destruct Hsteps as (Hsteps & Hlen & Hframe). rewrite Hsteps. simpl.
    assert (length h1 = S (length h)) as Hlen1 by lia.
    split; [|split; [|split; [|split; [|split; [|split]]]]].
    + unfold Heap.contents, set_unrolled_circuit, self1. simpl. rewrite Hrolled. simpl.
      rewrite (list_lookup_total_middle h1 [] _ (length h1)) by done.
      rewrite !lookup_total_app_l by lia. done.
    + unfold Heap.valid, self1. simpl. rewrite Hrolled. simpl.
      rewrite length_app. simpl.
      rewrite !(proj2 (Nat.ltb_lt _ _)) by lia. done.
    + intros r Hlt. rewrite lookup_total_app_l by lia.
      rewrite Hframe by lia. by rewrite lookup_total_app_l.
    + done.
    + simpl. by rewrite Hlen1.
    + rewrite length_app. simpl. lia.
    + rewrite <- Hlen1. rewrite (list_lookup_total_middle h1 [] _ (length h1)) by done.
      by rewrite lookup_total_app_l by lia.
Qed.

(** Every program is the contents of an object whose circuits are lists of
    their own. *)
Lemma load_contents (s : TDMProgram) :
  Heap.valid (Heap.load s).1 (Heap.load s).2 = true /\
  Heap.contents (Heap.load s).1 (Heap.load s).2 = s.
Proof.
  destruct s as [Ns modes circ bins total spatial measured [rc|] [uc|] cop seqs sh vars];
    split; reflexivity.
Qed.

(** C7 (amended). When a call of [unroll] returns, a cached unrolled
    circuit exists and holds the commands of the active circuit.  A second
    call then computes nothing: it makes and changes no list, records no
    measured mode again, and only makes [self.circuit] hold the cached list
    object, whose command sequence is the one the first call left; every
    later call leaves the program as it is.  The circuit of the second call
    is the list object of the first call only when the first call was
    itself served from the cache: a call that computes the unrolled circuit
    keeps it in a list of its own and caches a copy, another object.  By
    value the two calls give the same program. *)
Theorem unroll_idempotent (h h1 : Heap.store) (self u : Heap.TDMObject) :
  Heap.valid h self = true ->
  Heap.unroll h self = Ok (h1, u) ->
  exists c cmds,
    Heap.unrolled_circuit u = Some c /\
    h1 !! c = Some cmds /\ h1 !! Heap.circuit u = Some cmds /\
    Heap.unroll h1 u = Ok (h1, Heap.set_circuit c u) /\
    Heap.unroll h1 (Heap.set_circuit c u) = Ok (h1, Heap.set_circuit c u) /\
    (Heap.unrolled_circuit self = None -> c <> Heap.circuit u) /\
    (Heap.unrolled_circuit self <> None -> c = Heap.circuit u) /\
    unroll (Heap.contents h self) = Ok (Heap.contents h1 u) /\
    unrolled_circuit (Heap.contents h1 u) = Some (circuit (Heap.contents h1 u)) /\
    unroll (Heap.contents h1 u) = Ok (Heap.contents h1 u) /\
    Heap.contents h1 (Heap.set_circuit c u) = Heap.contents h1 u.
Proof.
  intros Hvalid Hrun. pose proof (unroll_contents h self Hvalid) as H.
  rewrite Hrun in H. destruct H as (Hval & Hvalid1 & _ & Hobj).
  pose proof (valid_inv _ _ Hvalid1) as (Hc1 & _ & Hu1).
  pose proof (unroll_caches _ _ Hval) as Hcache.
  assert (exists c, Heap.unrolled_circuit u = Some c /\
                    (Heap.unrolled_circuit self = None -> c <> Heap.circuit u) /\
                    (Heap.unrolled_circuit self <> None -> c = Heap.circuit u))
    as (c & Hc & Hnew & Hold).
  { destruct (Heap.unrolled_circuit self) as [c|] eqn:E.
    - destruct Hobj as [-> ->]. exists c. simpl. rewrite E. done.
    - destruct Hobj as (Hcirc & Hun & _). exists (S (length h)).
      rewrite Hcirc. split; [done|]. split; [lia|done]. }
  specialize (Hu1 c Hc).
  assert (h1 !!! c = h1 !!! Heap.circuit u) as Hsame.
  { unfold Heap.contents in Hcache. simpl in Hcache. rewrite Hc in Hcache. simpl in Hcache.
    by inversion Hcache. }
  exists c, (h1 !!! c).
  assert (Heap.contents h1 (Heap.set_circuit c u) = Heap.contents h1 u) as Hcont.
  { unfold Heap.contents. simpl. by rewrite Hsame. }
  split; [done|]. split; [by apply list_lookup_lookup_total_lt|].
  split; [rewrite Hsame; by apply list_lookup_lookup_total_lt|].
  split; [unfold Heap.unroll; by rewrite Hc|].
  split; [unfold Heap.unroll; simpl; by rewrite Hc|].
  split; [done|]. split; [done|]. split; [done|]. split; [done|]. split; [|done].
  rewrite (unroll_cached _ _ Hcache). by rewrite set_circuit_same.
Qed.

Lemma unroll_idempotent_witness :
  exists h1 u c,
    Heap.unroll (Heap.load Examples.doc_state).1 (Heap.load Examples.doc_state).2
    = Ok (h1, u) /\
    Heap.unrolled_circuit u = Some c /\
    Heap.unroll h1 u = Ok (h1, Heap.set_circuit c u) /\
    c <> Heap.circuit u.
Proof.
  assert (exists h1 u,
             Heap.unroll (Heap.load Examples.doc_state).1 (Heap.load Examples.doc_state).2
             = Ok (h1, u)) as (h1 & u & Hrun)
    by (eexists _, _; vm_compute; reflexivity).
  destruct (unroll_idempotent _ h1 _ u (proj1 (load_contents Examples.doc_state)) Hrun)
    as (c & cmds & Hc & _ & _ & Hsecond & _ & Hnew & _).
  exists h1, u, c. split; [exact Hrun|]. split; [exact Hc|]. split; [exact Hsecond|].
  apply Hnew. reflexivity.
Defined.

(** C7 as stated fails: after the two calls on the program of the class
    docstring, the active circuit of the second call is the cached list,
    and the active circuit the first call left is another list object, not
    the cache, though it holds the same commands. *)
Lemma unroll_cached_object_counterexample :
  exists h1 u h2 u2,
    Heap.unroll (Heap.load Examples.doc_state).1 (Heap.load Examples.doc_state).2
    = Ok (h1, u) /\
    Heap.unroll h1 u = Ok (h2, u2) /\
    Heap.unrolled_circuit u2 = Some (Heap.circuit u2) /\
    Heap.circuit u2 <> Heap.circuit u /\
    Heap.unrolled_circuit u <> Some (Heap.circuit u) /\
    h2 !! Heap.circuit u2 = h2 !! Heap.circuit u.
Proof.
  eexists _, _, _, _. split; [vm_compute; reflexivity|].
  split; [vm_compute; reflexivity|]. vm_compute.
  split; [reflexivity|]. split; [lia|]. split; [|reflexivity]. intros H. discriminate H.
Qed.
